(** * policy: installing and removing a framework's security policy files

    A shallow embedding of [policy/policy.go] (package [policy] of snapd)
    and the verification of its contract.

    The Go code is a pair of functions, [helper] and [FrameworkOp], that
    talk to the operating system through [os], [io] and [path/filepath].
    Those library calls are the boundary of the embedding.  They are given
    a semantics over an explicit world: a file tree indexed by clean paths
    and a log of the calls made.  Failures that the tree does not determine
    (permissions, I/O errors) come from a fault oracle, and the expansion
    of a glob pattern is a parameter of the development. *)

From Stdlib Require Import Ascii DecimalString DecimalN.
From stdpp Require Import base strings gmap list.

Set Default Proof Using "Type".

(** ** Paths: the part of [path/filepath] that the package uses *)

Module filepath.

(** [strings.Split(path, "/")]: the elements between separators. *)
Fixpoint split_sep (path : string) : list string :=
  match path with
  | EmptyString => [EmptyString]
  | String c rest =>
      if Ascii.eqb c "/"%char then EmptyString :: split_sep rest
      else match split_sep rest with
           | [] => [String c EmptyString]
           | e :: es => String c e :: es
           end
  end.

(** [strings.Join(elems, "/")]. *)
Fixpoint join_sep (elems : list string) : string :=
  match elems with
  | [] => ""
  | [e] => e
  | e :: es => e +:+ "/" +:+ join_sep es
  end.

Definition rooted (path : string) : bool :=
  match path with
  | String c _ => Ascii.eqb c "/"%char
  | EmptyString => false
  end.

(** One round of the loop of [Clean].  [out] is the output buffer as a
    stack of elements, last element first.  Empty and [.] elements are
    dropped; [..] removes the last real element when there is one, is kept
    on a relative path that has nothing left to remove, and is dropped at
    the root; any other element is appended. *)
Definition clean_step (is_rooted : bool) (out : list string) (elem : string)
  : list string :=
  if decide (elem = "") then out
  else if decide (elem = ".") then out
  else if decide (elem = "..") then
    match out with
    | top :: below =>
        if decide (top = "..") then (if is_rooted then out else ".." :: out)
        else below
    | [] => if is_rooted then [] else [".."]
    end
  else elem :: out.

Definition render (is_rooted : bool) (out : list string) : string :=
  if is_rooted then "/" +:+ join_sep (rev out)
  else match out with
       | [] => "."
       | _ => join_sep (rev out)
       end.

(** [filepath.Clean]: the shortest path equivalent to [path] by purely
    lexical processing. *)
Definition Clean (path : string) : string :=
  if decide (path = "") then "."
  else render (rooted path)
         (fold_left (clean_step (rooted path)) (split_sep path) []).

(** [filepath.Base]: the last element of [path], after trailing separators
    are removed; [.] for the empty path and [/] for a path of separators. *)
Definition Base (path : string) : string :=
  if decide (path = "") then "."
  else match last (filter (λ e, e ≠ "") (split_sep path)) with
       | Some e => e
       | None => "/"
       end.

(** [filepath.Join]: leading empty elements are ignored, the rest is joined
    with separators and the result is cleaned. *)
Fixpoint Join (elem : list string) : string :=
  match elem with
  | [] => ""
  | e :: es => if decide (e = "") then Join es else Clean (join_sep (e :: es))
  end.

(** The directory that holds the entry named by a clean path. *)
Definition dirname (path : string) : string :=
  match split_sep path with
  | [] | [_] => "."
  | ["" ; _] => "/"
  | es => join_sep (removelast es)
  end.

End filepath.

Import filepath.

(** ** The operating system as the package sees it *)

Inductive errno :=
  ENOENT | EEXIST | ENOTDIR | EISDIR | ENOTEMPTY | EACCES | EIO | ENOSPC
| ELOOP | ENXIO.

Definition errno_text (e : errno) : string :=
  match e with
  | ENOENT => "no such file or directory"
  | EEXIST => "file exists"
  | ENOTDIR => "not a directory"
  | EISDIR => "is a directory"
  | ENOTEMPTY => "directory not empty"
  | EACCES => "permission denied"
  | EIO => "input/output error"
  | ENOSPC => "no space left on device"
  | ELOOP => "too many levels of symbolic links"
  | ENXIO => "no such device or address"
  end.

(** [os.PathError]: what the calls of package [os] return on failure. *)
Record PathError := PathErr { Op : string; Path : string; Err : errno }.

Definition PathError_text (e : PathError) : string :=
  Op e +:+ " " +:+ Path e +:+ ": " +:+ errno_text (Err e).

(** An entry of the file tree.  A regular file holds its bytes, a directory
    its permission bits, a symbolic link the path it points to. *)
Inductive node :=
| Regular (content : string)
| Directory (perm : N)
| Symlink (target : string)
| Device
| NamedPipe
| Socket.

(** [os.FileMode]: the type bits are the high bits of the mode word. *)
Definition FileMode := N.
Definition ModeDir : FileMode := N.shiftl 1 31%N.
Definition ModeSymlink : FileMode := N.shiftl 1 27%N.
Definition ModeDevice : FileMode := N.shiftl 1 26%N.
Definition ModeNamedPipe : FileMode := N.shiftl 1 25%N.
Definition ModeSocket : FileMode := N.shiftl 1 24%N.
Definition ModeCharDevice : FileMode := N.shiftl 1 21%N.
Definition ModeIrregular : FileMode := N.shiftl 1 19%N.
Definition ModeType : FileMode :=
  N.lor ModeDir (N.lor ModeSymlink (N.lor ModeNamedPipe (N.lor ModeSocket
    (N.lor ModeDevice (N.lor ModeCharDevice ModeIrregular))))).

Definition IsRegular (m : FileMode) : bool := N.eqb (N.land m ModeType) 0%N.

Definition mode_of (n : node) : FileMode :=
  match n with
  | Regular _ => 420%N
  | Directory perm => N.lor ModeDir perm
  | Symlink _ => N.lor ModeSymlink 511%N
  | Device => N.lor (N.lor ModeDevice ModeCharDevice) 432%N
  | NamedPipe => N.lor ModeNamedPipe 420%N
  | Socket => N.lor ModeSocket 493%N
  end.

(** The calls the package makes, with their arguments.  An open file is
    named by the path of the entry it was opened on. *)
Inductive call :=
| CallMkdirAll (path : string)
| CallMkdir (path : string)
| CallGlob (pattern : string)
| CallLstat (name : string)
| CallRemove (name : string)
| CallOpen (name : string)
| CallCreate (name : string)
| CallCopy (dst src : string)
| CallSync (file : string)
| CallClose (file : string).

Record world := World { tree : gmap string node; log : list call }.

(** Go functions that touch the file system are state transformers. *)
Definition io (A : Type) : Type := world → A * world.

#[global] Instance io_ret : MRet io := λ A (a : A) w, (a, w).
#[global] Instance io_bind : MBind io :=
  λ A B (f : A → io B) (m : io A) w, let '(a, w') := m w in f a w'.

Definition get_tree : io (gmap string node) := λ w, (tree w, w).
Definition put_tree (t : gmap string node) : io unit :=
  λ w, (tt, World t (log w)).
Definition logged (c : call) (w : world) : world :=
  World (tree w) (log w ++ [c]).
Definition record (c : call) : io unit := λ w, (tt, logged c w).

(** Looking a path up without following a link at its end. *)
Definition lookup_path (t : gmap string node) (path : string) : errno + node :=
  if decide (path = "") then inl ENOENT
  else match t !! Clean path with
       | Some n => inr n
       | None => inl ENOENT
       end.

Definition link_target (link target : string) : string :=
  if rooted target then Clean target
  else Clean (dirname link +:+ "/" +:+ target).

(** The entry a clean path leads to once the links at its end are
    followed; the kernel gives up after 40 of them. *)
Fixpoint realpath (fuel : nat) (t : gmap string node) (key : string)
  : errno + string :=
  match t !! key with
  | Some (Symlink target) =>
      if decide (target = "") then inl ENOENT
      else match fuel with
           | O => inl ELOOP
           | S fuel' => realpath fuel' t (link_target key target)
           end
  | _ => inr key
  end.

Definition max_links : nat := 40.

Definition stat (t : gmap string node) (path : string) : errno + node :=
  if decide (path = "") then inl ENOENT
  else match realpath max_links t (Clean path) with
       | inl e => inl e
       | inr key => match t !! key with
                    | Some n => inr n
                    | None => inl ENOENT
                    end
       end.

Definition is_dir (t : gmap string node) (path : string) : bool :=
  match stat t path with
  | inr (Directory _) => true
  | _ => false
  end.

(** No entry other than [dir] itself lies directly in [dir]. *)
Definition empty_dir (t : gmap string node) (dir : string) : bool :=
  bool_decide (map_Forall (λ k (_ : node), ¬ (k ≠ dir ∧ dirname k = dir)) t).

(** ** The package *)

Definition secbase : string := "/var/lib/snappy".

(** [type policyOp uint], with [Install = iota] and [Remove] after it. *)
Definition policyOp := N.
Definition Install : policyOp := 0%N.
Definition Remove : policyOp := 1%N.

Definition policyOp_String (op : policyOp) : string :=
  if N.eqb op Remove then "Remove"
  else if N.eqb op Install then "Install"
  else "policyOp(" +:+ NilEmpty.string_of_uint (N.to_uint op) +:+ ")".

(** The errors of [helper], one constructor for each [fmt.Errorf]. *)
Inductive error :=
| DirectoryCreateError (targetDir : string) (cause : PathError)
| GlobError (glob : string)
| StatError (file : string) (cause : PathError)
| NotRegularFile (op : policyOp) (file : string)
| RemoveError (targetFile : string) (cause : PathError)
| SourceReadError (file : string) (cause : PathError)
| TargetCreateError (targetFile : string) (cause : PathError)
| CopyError (file targetFile : string) (cause : PathError)
| SyncError (targetFile : string) (cause : PathError)
| UnknownOperation (op : policyOp).

(** The text [fmt.Errorf] builds for each of them. *)
Definition error_text (e : error) : string :=
  match e with
  | DirectoryCreateError d c =>
      "unable to make " +:+ d +:+ " directory: " +:+ PathError_text c
  | GlobError g => "unable to glob " +:+ g +:+ ": syntax error in pattern"
  | StatError f c => "unable to stat " +:+ f +:+ ": " +:+ PathError_text c
  | NotRegularFile op f =>
      "unable to do " +:+ policyOp_String op +:+ " for " +:+ f
      +:+ ": not a regular file"
  | RemoveError t c => "unable to remove " +:+ t +:+ ": " +:+ PathError_text c
  | SourceReadError f c => "unable to read " +:+ f +:+ ": " +:+ PathError_text c
  | TargetCreateError t c =>
      "unable to create " +:+ t +:+ ": " +:+ PathError_text c
  | CopyError f t c =>
      "unable to copy " +:+ f +:+ " to " +:+ t +:+ ": " +:+ PathError_text c
  | SyncError t c => "when syncing " +:+ t +:+ ": " +:+ PathError_text c
  | UnknownOperation op => "unknown operation " +:+ policyOp_String op
  end.

(** The elements of [path] without the empty ones at its end. *)
Fixpoint strip_trailing (elems : list string) : list string :=
  match elems with
  | [] => []
  | e :: es =>
      match strip_trailing es with
      | [] => if decide (e = "") then [] else [e]
      | es' => e :: es'
      end
  end.

(** [path[0:j-1]] in [os.MkdirAll]: [path] without its trailing separators,
    its last element and the separator before that. *)
Definition mkdir_parent (path : string) : string :=
  join_sep (removelast (strip_trailing (split_sep path))).

(** The target of a match (line 80):
    [filepath.Join(targetDir, suffix+filepath.Base(file))]. *)
Definition target_path (targetDir suffix file : string) : string :=
  Join [targetDir; suffix +:+ Base file].

Section policy.

(** What makes a call fail although the tree would let it succeed. *)
Variable fault : call → option errno.
(** How many bytes reach the target when a copy to it is cut short. *)
Variable short_write : string → nat.
(** [filepath.Glob]: the matches of a pattern in a tree, [None] for a
    malformed pattern. *)
Variable glob_matches : gmap string node → string → option (list string).

Definition os_Lstat (name : string) : io (PathError + FileMode) :=
  record (CallLstat name);;
  t ← get_tree;
  match fault (CallLstat name) with
  | Some e => mret (inl (PathErr "lstat" name e))
  | None =>
      match lookup_path t name with
      | inl e => mret (inl (PathErr "lstat" name e))
      | inr n => mret (inr (mode_of n))
      end
  end.

Definition os_Mkdir (name : string) (perm : N) : io (option PathError) :=
  t ← get_tree;
  match fault (CallMkdir name) with
  | Some e => mret (Some (PathErr "mkdir" name e))
  | None =>
      if decide (name = "") then mret (Some (PathErr "mkdir" name ENOENT))
      else
        match t !! Clean name with
        | Some _ => mret (Some (PathErr "mkdir" name EEXIST))
        | None =>
            match stat t (dirname (Clean name)) with
            | inr (Directory _) =>
                put_tree (<[Clean name := Directory perm]> t);; mret None
            | inr _ => mret (Some (PathErr "mkdir" name ENOTDIR))
            | inl e => mret (Some (PathErr "mkdir" name e))
            end
        end
  end.

(** [os.MkdirAll]: nothing to do when [path] is a directory; otherwise the
    parent is made first, then [path] itself.  Each nested call is on a
    shorter path, so the length of the path bounds their number. *)
Fixpoint MkdirAll_rec (fuel : nat) (path : string) (perm : N)
  : io (option PathError) :=
  t ← get_tree;
  match stat t path with
  | inr (Directory _) => mret None
  | inr _ => mret (Some (PathErr "mkdir" path ENOTDIR))
  | inl _ =>
      err ← (if decide (mkdir_parent path = "") then mret None
             else match fuel with
                  | O => mret (Some (PathErr "mkdir" path ELOOP))
                  | S fuel' => MkdirAll_rec fuel' (mkdir_parent path) perm
                  end);
      match err with
      | Some e => mret (Some e)
      | None =>
          err ← os_Mkdir path perm;
          match err with
          | Some e =>
              t' ← get_tree;
              match lookup_path t' path with
              | inr (Directory _) => mret None
              | _ => mret (Some e)
              end
          | None => mret None
          end
      end
  end.

Definition os_MkdirAll (path : string) (perm : N) : io (option PathError) :=
  record (CallMkdirAll path);;
  MkdirAll_rec (String.length path) path perm.

Definition filepath_Glob (pattern : string) : io (option (list string)) :=
  record (CallGlob pattern);;
  t ← get_tree;
  mret (glob_matches t pattern).

(** [os.Remove]: unlinks a file or removes an empty directory. *)
Definition os_Remove (name : string) : io (option PathError) :=
  record (CallRemove name);;
  t ← get_tree;
  match fault (CallRemove name) with
  | Some e => mret (Some (PathErr "remove" name e))
  | None =>
      match lookup_path t name with
      | inl e => mret (Some (PathErr "remove" name e))
      | inr (Directory _) =>
          if empty_dir t (Clean name)
          then put_tree (delete (Clean name) t);; mret None
          else mret (Some (PathErr "remove" name ENOTEMPTY))
      | inr _ => put_tree (delete (Clean name) t);; mret None
      end
  end.

(** [os.Open]: opens for reading, following links. *)
Definition os_Open (name : string) : io (PathError + string) :=
  record (CallOpen name);;
  t ← get_tree;
  match fault (CallOpen name) with
  | Some e => mret (inl (PathErr "open" name e))
  | None =>
      if decide (name = "") then mret (inl (PathErr "open" name ENOENT))
      else
        match realpath max_links t (Clean name) with
        | inl e => mret (inl (PathErr "open" name e))
        | inr key =>
            match t !! key with
            | Some _ => mret (inr key)
            | None => mret (inl (PathErr "open" name ENOENT))
            end
        end
  end.

(** [os.Create]: opens for writing, following links; an existing file is
    truncated, a missing one is created in its directory. *)
Definition os_Create (name : string) : io (PathError + string) :=
  record (CallCreate name);;
  t ← get_tree;
  match fault (CallCreate name) with
  | Some e => mret (inl (PathErr "open" name e))
  | None =>
      if decide (name = "") then mret (inl (PathErr "open" name ENOENT))
      else
        match realpath max_links t (Clean name) with
        | inl e => mret (inl (PathErr "open" name e))
        | inr key =>
            match t !! key with
            | Some (Directory _) => mret (inl (PathErr "open" name EISDIR))
            | Some Socket => mret (inl (PathErr "open" name ENXIO))
            | Some (Regular _) =>
                put_tree (<[key := Regular ""]> t);; mret (inr key)
            | Some _ => mret (inr key)
            | None =>
                match stat t (dirname key) with
                | inr (Directory _) =>
                    put_tree (<[key := Regular ""]> t);; mret (inr key)
                | inr _ => mret (inl (PathErr "open" name ENOTDIR))
                | inl e => mret (inl (PathErr "open" name e))
                end
            end
        end
  end.

(** Writing to an open file: bytes written to a regular file replace its
    (truncated) content, bytes written elsewhere leave the tree alone. *)
Definition write_file (file data : string) : io unit :=
  t ← get_tree;
  match t !! file with
  | Some (Regular _) => put_tree (<[file := Regular data]> t)
  | _ => mret tt
  end.

(** [io.Copy(dst, src)]: the bytes of the source as they are when the copy
    runs; a failing copy leaves what it had written. *)
Definition io_Copy (dst src : string) : io (option PathError) :=
  record (CallCopy dst src);;
  t ← get_tree;
  let data := match t !! src with Some (Regular c) => c | _ => "" end in
  match fault (CallCopy dst src) with
  | Some e =>
      write_file dst (String.substring 0 (short_write dst) data);;
      mret (Some (PathErr "write" dst e))
  | None => write_file dst data;; mret None
  end.

Definition File_Sync (file : string) : io (option PathError) :=
  record (CallSync file);;
  mret (match fault (CallSync file) with
        | Some e => Some (PathErr "sync" file e)
        | None => None
        end).

Definition File_Close (file : string) : io (option PathError) :=
  record (CallClose file);;
  mret (match fault (CallClose file) with
        | Some e => Some (PathErr "close" file e)
        | None => None
        end).

(** The deferred closures of [helper] (lines 92-96 and 101-105) close the
    file and, when that fails, assign to [err].  That [err] is the one
    declared by [fin, err := os.Open(file)] inside the [case] clause; it
    shadows the result of [helper], so what [Close] returns reaches no
    caller. *)
Definition deferred_close (file : string) : io unit :=
  cerr ← File_Close file;
  mret tt.

(** Deferred calls run when [helper] returns, last deferred first. *)
Fixpoint run_deferred (deferred : list string) : io unit :=
  match deferred with
  | [] => mret tt
  | file :: earlier => deferred_close file;; run_deferred earlier
  end.

(** The body of the loop of [helper] (lines 73-114) for one match.  It
    yields the error that makes [helper] return, if any, and the files whose
    closing is deferred so far, the last one first. *)
Definition visit (op : policyOp) (targetDir suffix file : string)
    (deferred : list string) : io (option error * list string) :=
  s ← os_Lstat file;
  match s with
  | inl err => mret (Some (StatError file err), deferred)
  | inr mode =>
      if negb (IsRegular mode)
      then mret (Some (NotRegularFile op file), deferred)
      else
        let targetFile := target_path targetDir suffix file in
        if N.eqb op Remove then
          err ← os_Remove targetFile;
          match err with
          | Some err => mret (Some (RemoveError targetFile err), deferred)
          | None => mret (None, deferred)
          end
        else if N.eqb op Install then
          fin ← os_Open file;
          match fin with
          | inl err => mret (Some (SourceReadError file err), deferred)
          | inr fin =>
              fout ← os_Create targetFile;
              match fout with
              | inl err =>
                  mret (Some (TargetCreateError targetFile err),
                        fin :: deferred)
              | inr fout =>
                  err ← io_Copy fout fin;
                  match err with
                  | Some err =>
                      mret (Some (CopyError file targetFile err),
                            fout :: fin :: deferred)
                  | None =>
                      err ← File_Sync fout;
                      match err with
                      | Some err =>
                          mret (Some (SyncError targetFile err),
                                fout :: fin :: deferred)
                      | None => mret (None, fout :: fin :: deferred)
                      end
                  end
              end
          end
        else mret (Some (UnknownOperation op), deferred)
  end.

(** [for _, file := range files] (lines 72-115): the first error ends it. *)
Fixpoint range_files (op : policyOp) (targetDir suffix : string)
    (files : list string) (deferred : list string)
  : io (option error * list string) :=
  match files with
  | [] => mret (None, deferred)
  | file :: rest =>
      '(err, deferred') ← visit op targetDir suffix file deferred;
      match err with
      | Some e => mret (Some e, deferred')
      | None => range_files op targetDir suffix rest deferred'
      end
  end.

(** [helper] (lines 61-117). *)
Definition helper (op : policyOp) (glob targetDir suffix : string)
  : io (option error) :=
  err ← os_MkdirAll targetDir 493;
  match err with
  | Some err => mret (Some (DirectoryCreateError targetDir err))
  | None =>
      files ← filepath_Glob glob;
      match files with
      | None => mret (Some (GlobError glob))
      | Some files =>
          '(err, deferred) ← range_files op targetDir suffix files [];
          run_deferred deferred;;
          mret err
      end
  end.

(** A [range] loop whose body returns from the function on an error. *)
Fixpoint for_each (items : list string) (body : string → io (option error))
  : io (option error) :=
  match items with
  | [] => mret None
  | x :: rest =>
      err ← body x;
      match err with
      | Some e => mret (Some e)
      | None => for_each rest body
      end
  end.

(** [FrameworkOp] (lines 121-131). *)
Definition FrameworkOp (op : policyOp) (pkgName instPath : string)
  : io (option error) :=
  let pol := Join [instPath; "meta"; "framework-policy"] in
  for_each ["apparmor"; "seccomp"] (λ i,
    for_each ["policygroups"; "templates"] (λ j,
      helper op (Join [pol; i; j; "*"]) (Join [secbase; i; j])
        (pkgName +:+ "_"))).

(** [helper], started in [w], has made the target directory, has expanded
    the glob to [pre ++ file :: post], has gone through [pre] without an
    error and stands before [file] in the world [w2], with [deferred] still
    to close. *)
Definition arrives_at (op : policyOp) (glob targetDir suffix : string)
    (pre : list string) (file : string) (post : list string)
    (w : world) (deferred : list string) (w2 : world) : Prop :=
  ∃ w1,
    os_MkdirAll targetDir 493 w = (None, w1)
    ∧ glob_matches (tree w1) glob = Some (pre ++ file :: post)
    ∧ range_files op targetDir suffix pre [] (logged (CallGlob glob) w1)
      = ((None, deferred), w2).

End policy.

(** From [w] to [w'] the log is the same and the tree has at most gained
    directories with permission bits [perm] where nothing was. *)
Definition only_adds_dirs (perm : N) (w w' : world) : Prop :=
  log w' = log w
  ∧ ∀ k, tree w' !! k = tree w !! k
         ∨ (tree w !! k = None ∧ tree w' !! k = Some (Directory perm)).


Fixpoint remove_tree (targetDir suffix : string) (files : list string)
    (t : gmap string node) : gmap string node :=
  match files with
  | [] => t
  | file :: rest =>
      remove_tree targetDir suffix rest
        (delete (target_path targetDir suffix file) t)
  end.

(** A path element that holds no separator. *)
Fixpoint no_sep (s : string) : bool :=
  match s with
  | EmptyString => true
  | String c rest => negb (Ascii.eqb c "/"%char) && no_sep rest
  end.

(** An element that [Clean] keeps as it is: a name without separator that
    is neither empty nor [.] nor [..]. *)
Definition plain (e : string) : Prop :=
  no_sep e = true ∧ e ≠ "" ∧ e ≠ "." ∧ e ≠ "..".


(** The output buffer of [Clean] holds plain names on top of [..]
    elements, and no [..] at all on a rooted path. *)
Definition clean_out (is_rooted : bool) (out : list string) : Prop :=
  ∃ names k,
    out = names ++ replicate k ".."
    ∧ Forall plain names
    ∧ (is_rooted = true → k = 0).

(** The output buffer of [Clean] at the end of [path]. *)
Definition stack_of (path : string) : list string :=
  fold_left (clean_step (rooted path)) (split_sep path) [].

(** The four combinations of [FrameworkOp], in the order of its loops. *)
Definition combinations : list (string * string) :=
  [("apparmor", "policygroups"); ("apparmor", "templates");
   ("seccomp", "policygroups"); ("seccomp", "templates")].

(** Running actions one after the other up to the first error. *)
Fixpoint until_error (steps : list (io (option error))) : io (option error) :=
  match steps with
  | [] => mret None
  | step :: rest =>
      err ← step;
      match err with
      | Some e => mret (Some e)
      | None => until_error rest
      end
  end.

(** ** A concrete environment

    Used for the examples: no call fails unless the tree makes it fail, and
    a pattern [dir/*] without metacharacters in [dir] matches the entries
    of [dir], sorted by name, as [filepath.Glob] lists them. *)

Definition no_fault : call → option errno := λ _, None.
Definition no_short_write : string → nat := λ _, 0.

Fixpoint insert_sorted (s : string) (l : list string) : list string :=
  match l with
  | [] => [s]
  | x :: rest => if String.leb s x then s :: l else x :: insert_sorted s rest
  end.

Definition sort_names (l : list string) : list string :=
  foldr insert_sorted [] l.

Definition dir_glob (t : gmap string node) (pattern : string)
  : option (list string) :=
  if decide (Base pattern = "*") then
    Some (sort_names
            (filter (λ k, k ≠ dirname pattern ∧ dirname k = dirname pattern)
                    (map fst (map_to_list t))))
  else match t !! pattern with
       | Some _ => Some [pattern]
       | None => Some []
       end.

Definition tree_of (entries : list (string * node)) : gmap string node :=
  list_to_map entries.

Definition boot (entries : list (string * node)) : world :=
  World (tree_of entries) [].

(** *** Worlds for the examples *)

(** Nothing but the root directory. *)
Definition world_fresh : world := boot [("/", Directory 493)].

(** A source directory with a regular file, a directory and a link to the
    regular file, and no target directory yet. *)
Definition world_src : world :=
  boot [("/", Directory 493); ("/src", Directory 493);
        ("/src/a_net", Regular "allow net");
        ("/src/b_dir", Directory 493);
        ("/src/c_lnk", Symlink "a_net")].

(** A package installed under [/snap/pkg] with one apparmor policy group. *)
Definition world_pkg : world :=
  boot [("/", Directory 493); ("/snap", Directory 493);
        ("/snap/pkg", Directory 493); ("/snap/pkg/meta", Directory 493);
        ("/snap/pkg/meta/framework-policy", Directory 493);
        ("/snap/pkg/meta/framework-policy/apparmor", Directory 493);
        ("/snap/pkg/meta/framework-policy/apparmor/policygroups",
         Directory 493);
        ("/snap/pkg/meta/framework-policy/apparmor/policygroups/net",
         Regular "allow net")].

(** Two regular sources and no target directory yet. *)
Definition world_two : world :=
  boot [("/", Directory 493); ("/src", Directory 493);
        ("/src/fs", Regular "allow fs"); ("/src/net", Regular "allow net")].

(** A source whose target is there already, with other bytes. *)
Definition world_old : world :=
  boot [("/", Directory 493); ("/src", Directory 493);
        ("/src/net", Regular "new"); ("/dst", Directory 493);
        ("/dst/p_net", Regular "old")].


(** [helper] and [FrameworkOp] in the concrete environment. *)
Definition run_helper := helper no_fault no_short_write dir_glob.
Definition run_FrameworkOp := FrameworkOp no_fault no_short_write dir_glob.

(** [world_src] once [/dst] is made and the glob [/src/*] is expanded, and
    the loop of [Install] after its first match, [/src/a_net]. *)
Definition src_made : world :=
  (os_MkdirAll no_fault "/dst" 493 world_src).2.
Definition src_first_installed : (option error * list string) * world :=
  range_files no_fault no_short_write Install "/dst" "p_" ["/src/a_net"] []
    (logged (CallGlob "/src/*") src_made).


(** The policy group of [world_pkg] and the one of package [a] in
    [world_two_pkgs]. *)
Definition pkg_net : string :=
  "/snap/pkg/meta/framework-policy/apparmor/policygroups/net".

(** Two fault oracles that differ at most on the closing of files. *)
Definition agree_but_close (f f' : call → option errno) : Prop :=
  ∀ c, (∀ file, c ≠ CallClose file) → f c = f' c.

(** Every [Close] fails with an I/O error; no other call fails. *)
Definition close_fails : call → option errno :=
  λ c, match c with CallClose _ => Some EIO | _ => None end.

(** From [t] to [t'] nothing has changed but that entries named in [keys]
    may be gone. *)
Definition only_removes (keys : list string) (t t' : gmap string node)
  : Prop :=
  ∀ k, t' !! k = t !! k ∨ (t' !! k = None ∧ k ∈ keys).

(** From [t] to [t'] nothing has changed but the bytes of regular files,
    and regular files that are where nothing was. *)
Definition only_writes_files (t t' : gmap string node) : Prop :=
  ∀ k, t' !! k = t !! k
       ∨ ∃ c, t' !! k = Some (Regular c)
              ∧ (t !! k = None ∨ ∃ old, t !! k = Some (Regular old)).


(** From [t] to [t'] no entry is gone and nothing but regular files has
    changed: at most directories with permission bits [perm] were made
    where nothing was, and regular files were written. *)
Definition only_grows (perm : N) (t t' : gmap string node) : Prop :=
  ∀ k, t' !! k = t !! k
       ∨ (t !! k = None ∧ t' !! k = Some (Directory perm))
       ∨ ∃ c, t' !! k = Some (Regular c)
              ∧ (t !! k = None ∨ ∃ old, t !! k = Some (Regular old)).

(** Every entry of [t'] is an entry of [t] or a directory with permission
    bits [perm]. *)
Definition writes_no_file (perm : N) (t t' : gmap string node) : Prop :=
  ∀ k n, t' !! k = Some n → t !! k = Some n ∨ n = Directory perm.


(** A target that is a link to its source. *)
Definition world_link : world :=
  boot [("/", Directory 493); ("/src", Directory 493);
        ("/src/net", Regular "allow net"); ("/dst", Directory 493);
        ("/dst/p_net", Symlink "/src/net")].



(** ** Paths *)

Example Clean_double_slash : Clean "abc//def//ghi" = "abc/def/ghi".
Proof. reflexivity. Qed.
Example Clean_dot : Clean "abc/./def" = "abc/def".
Proof. reflexivity. Qed.
Example Clean_dotdot : Clean "abc/def/../ghi/../jkl" = "abc/jkl".
Proof. reflexivity. Qed.
Example Clean_dotdot_past_start : Clean "abc/def/../../.." = "..".
Proof. reflexivity. Qed.
Example Clean_dotdot_at_root : Clean "/../abc" = "/abc".
Proof. reflexivity. Qed.
Example Clean_keeps_leading_dotdot : Clean "../../abc/../def" = "../../def".
Proof. reflexivity. Qed.
Example Clean_trailing_slash : Clean "/abc/" = "/abc".
Proof. reflexivity. Qed.
Example Clean_only_dots : Clean "abc/.." = ".".
Proof. reflexivity. Qed.
Example Clean_root : Clean "///" = "/".
Proof. reflexivity. Qed.
Example Base_plain : Base "/a/b/net" = "net".
Proof. reflexivity. Qed.
Example Base_trailing : Base "a/b//" = "b".
Proof. reflexivity. Qed.
Example Base_root : Base "//" = "/".
Proof. reflexivity. Qed.
Example Join_skips_empty : Join [""; "meta"; "x"] = "meta/x".
Proof. reflexivity. Qed.
Example Join_cleans : Join ["/var/lib"; "../x"] = "/var/x".
Proof. reflexivity. Qed.
Example dirname_file : dirname "/var/lib/x" = "/var/lib".
Proof. reflexivity. Qed.
Example dirname_top : dirname "/var" = "/".
Proof. reflexivity. Qed.



(** *** Splitting and joining *)

Lemma append_assoc a b c : (a +:+ b) +:+ c = a +:+ (b +:+ c).
Proof.
  induction a as [|x a IH]; [reflexivity|].
  change (String x ((a +:+ b) +:+ c) = String x (a +:+ (b +:+ c))).
  f_equal. exact IH.
Qed.

Lemma append_nil_r a : a +:+ "" = a.
Proof.
  induction a as [|x a IH]; [reflexivity|].
  change (String x (a +:+ "") = String x a). f_equal. exact IH.
Qed.

Lemma split_sep_nonempty s : split_sep s ≠ [].
Proof.
  destruct s as [|c s]; simpl; [done|].
  destruct (Ascii.eqb c "/"); [done|]. by destruct (split_sep s).
Qed.

Lemma split_sep_app_sep a b :
  split_sep (a +:+ "/" +:+ b) = split_sep a ++ split_sep b.
Proof.
  induction a as [|c a IH]; simpl; [done|].
  destruct (Ascii.eqb c "/"); rewrite IH; [done|].
  pose proof (split_sep_nonempty a). by destruct (split_sep a).
Qed.

Lemma split_sep_no_sep s : no_sep s = true → split_sep s = [s].
Proof.
  induction s as [|c s IH]; simpl; [done|].
  destruct (Ascii.eqb c "/"); simpl; [done|]. intros H. by rewrite IH.
Qed.

Lemma split_sep_elements s : Forall (λ e, no_sep e = true) (split_sep s).
Proof.
  induction s as [|c s IH]; simpl; [by repeat constructor|].
  destruct (Ascii.eqb c "/") eqn:Hc; [by constructor|].
  pose proof (split_sep_nonempty s).
  destruct (split_sep s) as [|e es]; [done|].
  inversion_clear IH. constructor; [|done]. simpl. by rewrite Hc.
Qed.

Lemma join_sep_cons e l :
  l ≠ [] → join_sep (e :: l) = e +:+ "/" +:+ join_sep l.
Proof. by destruct l. Qed.

Lemma join_split s : join_sep (split_sep s) = s.
Proof.
  induction s as [|c s IH]; [done|].
  pose proof (split_sep_nonempty s) as Hne.
  change (split_sep (String c s))
    with (if Ascii.eqb c "/" then "" :: split_sep s
          else match split_sep s with
               | [] => [String c ""]
               | e :: es => String c e :: es
               end).
  destruct (Ascii.eqb c "/") eqn:Hc.
  - apply Ascii.eqb_eq in Hc as ->.
    rewrite join_sep_cons by exact Hne. rewrite IH. reflexivity.
  - destruct (split_sep s) as [|e es]; [done|].
    destruct es as [|e' es]; [simpl in IH; subst s; reflexivity|].
    rewrite join_sep_cons in IH by done. rewrite join_sep_cons by done.
    rewrite <- IH. reflexivity.
Qed.

Lemma split_join l :
  l ≠ [] → Forall (λ e, no_sep e = true) l → split_sep (join_sep l) = l.
Proof.
  induction l as [|e l IH]; [done|]. intros _ Hl. inversion_clear Hl as [|? ? He Hl'].
  destruct l as [|e' l]; simpl; [by apply split_sep_no_sep|].
  change (split_sep (e +:+ "/" +:+ join_sep (e' :: l)) = e :: e' :: l).
  rewrite split_sep_app_sep, (split_sep_no_sep _ He), IH; done.
Qed.

Lemma join_sep_snoc l x :
  join_sep (l ++ [x]) = match l with [] => x | _ => join_sep l +:+ "/" +:+ x end.
Proof.
  induction l as [|e l IH]; [done|].
  destruct l as [|e' l]; [done|].
  change (e +:+ "/" +:+ join_sep ((e' :: l) ++ [x])
          = (e +:+ "/" +:+ join_sep (e' :: l)) +:+ "/" +:+ x).
  rewrite IH. by rewrite !append_assoc.
Qed.

Lemma no_sep_app a b : no_sep (a +:+ b) = no_sep a && no_sep b.
Proof.
  induction a as [|c a IH]; simpl; [done|]. rewrite IH. by rewrite andb_assoc.
Qed.

(** The base name of [dir/name] is [name]. *)
Lemma Base_in_dir dir name :
  no_sep name = true → name ≠ "" → Base (dir +:+ "/" +:+ name) = name.
Proof.
  intros Hn Hne. unfold Base. case_decide as H0.
  { by destruct dir. }
  rewrite split_sep_app_sep, (split_sep_no_sep _ Hn), filter_app.
  rewrite filter_cons_True by done. rewrite filter_nil.
  by rewrite last_snoc.
Qed.

(** *** Clean *)

Lemma plain_step r out e : plain e → clean_step r out e = e :: out.
Proof.
  intros (_ & H1 & H2 & H3). unfold clean_step.
  by rewrite !decide_False.
Qed.

Lemma clean_out_nil r : clean_out r [].
Proof. exists [], 0. by split_and!. Qed.

Lemma clean_out_elements r out :
  clean_out r out → Forall (λ e, no_sep e = true ∧ e ≠ "") out.
Proof.
  intros (names & k & -> & Hn & _). apply Forall_app. split.
  - eapply Forall_impl; [done|]. by intros e (? & ? & _).
  - apply Forall_replicate. done.
Qed.

Lemma clean_step_out r out e :
  no_sep e = true → clean_out r out → clean_out r (clean_step r out e).
Proof.
  intros He Hout. unfold clean_step.
  case_decide as H1; [done|]. case_decide as H2; [done|].
  case_decide as H3.
  - destruct Hout as (names & k & -> & Hn & Hk).
    destruct names as [|n names]; simpl.
    + destruct k as [|k]; simpl.
      * destruct r; [apply clean_out_nil|]. by exists [], 1.
      * try rewrite decide_True by done. destruct r.
        { by exists [], (S k). }
        exists [], (S (S k)). by split_and!.
    + inversion_clear Hn as [|? ? Hp Hn'].
      rewrite decide_False by (by destruct Hp as (_ & _ & _ & ?)).
      by exists names, k.
  - destruct Hout as (names & k & -> & Hn & Hk).
    exists (e :: names), k. split_and!; [done| |done].
    constructor; [|done]. by split_and!.
Qed.

Lemma fold_clean_out r es out :
  Forall (λ e, no_sep e = true) es → clean_out r out →
  clean_out r (fold_left (clean_step r) es out).
Proof.
  revert out. induction es as [|e es IH]; intros out Hes Hout; [done|].
  inversion_clear Hes. simpl. apply IH; [done|]. by apply clean_step_out.
Qed.

Lemma stack_of_out path : clean_out (rooted path) (stack_of path).
Proof.
  apply fold_clean_out; [apply split_sep_elements|apply clean_out_nil].
Qed.

Lemma fold_plain r names base :
  Forall plain names →
  fold_left (clean_step r) (rev names) base = names ++ base.
Proof.
  induction names as [|n names IH]; intros Hn; [done|].
  inversion_clear Hn. simpl. rewrite fold_left_app, IH by done. simpl.
  by apply plain_step.
Qed.

Lemma fold_dotdot k :
  fold_left (clean_step false) (replicate k "..") [] = replicate k "..".
Proof.
  assert (H : ∀ j, fold_left (clean_step false) (replicate k "..")
                (replicate j "..") = replicate (k + j) "..").
  { induction k as [|k IH]; intros j; [done|]. simpl.
    replace (clean_step false (replicate j "..") "..")
      with (replicate (S j) "..").
    - by rewrite IH, Nat.add_succ_r.
    - by destruct j. }
  specialize (H 0). simpl in H. by rewrite H, Nat.add_0_r.
Qed.

Lemma rev_replicate {A} k (x : A) : rev (replicate k x) = replicate k x.
Proof.
  induction k as [|k IH]; [done|]. simpl. rewrite IH.
  by rewrite <- replicate_cons_app.
Qed.

(** Reading back what [Clean] wrote gives the same buffer. *)
Lemma fold_rev_out r out :
  clean_out r out → fold_left (clean_step r) (rev out) [] = out.
Proof.
  intros (names & k & -> & Hn & Hk).
  rewrite rev_app_distr, fold_left_app.
  assert (Hd : fold_left (clean_step r) (rev (replicate k "..")) []
               = replicate k "..").
  { destruct r.
    - by rewrite (Hk eq_refl).
    - rewrite rev_replicate. apply fold_dotdot. }
  rewrite Hd. by apply fold_plain.
Qed.

Lemma rooted_app a b : a ≠ "" → rooted (a +:+ b) = rooted a.
Proof. by destruct a. Qed.

Lemma rooted_no_sep e : no_sep e = true → rooted e = false.
Proof.
  destruct e as [|c e]; [done|]. simpl. by destruct (Ascii.eqb c "/").
Qed.

Lemma join_sep_rooted e l :
  no_sep e = true → e ≠ "" → rooted (join_sep (e :: l)) = false.
Proof.
  intros He Hne. destruct l as [|e' l]; [by apply rooted_no_sep|].
  rewrite join_sep_cons by done. rewrite rooted_app by done.
  by apply rooted_no_sep.
Qed.

Lemma join_sep_nonempty e l : e ≠ "" → join_sep (e :: l) ≠ "".
Proof.
  intros Hne. destruct l as [|e' l]; [done|].
  rewrite join_sep_cons by done. by destruct e.
Qed.

Lemma rev_out_head r out :
  clean_out r out → out ≠ [] →
  ∃ e l, rev out = e :: l ∧ no_sep e = true ∧ e ≠ ""
         ∧ Forall (λ e, no_sep e = true) (rev out).
Proof.
  intros Hout Hne. apply clean_out_elements in Hout.
  assert (Hrev : Forall (λ e, no_sep e = true ∧ e ≠ "") (rev out)).
  { apply Forall_forall. intros x Hx. rewrite Forall_forall in Hout.
    apply Hout. apply list_elem_of_In, in_rev, list_elem_of_In. done. }
  destruct (rev out) as [|e l] eqn:Hr.
  - apply (f_equal (@rev _)) in Hr. rewrite rev_involutive in Hr. done.
  - inversion Hrev as [|? ? [? ?] Hl]; subst. exists e, l. split_and!; try done.
    eapply Forall_impl; [exact Hrev|]. by intros ? [? ?].
Qed.

(** What [Clean] returns is not empty, is rooted exactly when its argument
    is, and reads back as the buffer it was written from. *)
Lemma render_reads_back r out :
  clean_out r out →
  render r out ≠ ""
  ∧ rooted (render r out) = r
  ∧ fold_left (clean_step r) (split_sep (render r out)) [] = out.
Proof.
  intros Hout. destruct (decide (out = [])) as [->|Hne].
  { by destruct r. }
  destruct (rev_out_head r out Hout Hne) as (e & l & Hr & He & Hne' & Hall).
  destruct r; unfold render.
  - split_and!; [done|done|].
    change ("/" +:+ join_sep (rev out)) with ("" +:+ "/" +:+ join_sep (rev out)).
    rewrite split_sep_app_sep. simpl.
    rewrite split_join; [by apply fold_rev_out| |done].
    by rewrite Hr.
  - destruct out as [|x out']; [done|].
    split_and!.
    + rewrite Hr. by apply join_sep_nonempty.
    + rewrite Hr. by apply join_sep_rooted.
    + rewrite split_join; [by apply fold_rev_out| |done].
      by rewrite Hr.
Qed.

Lemma Clean_render path :
  path ≠ "" → Clean path = render (rooted path) (stack_of path).
Proof. intros H. unfold Clean. by rewrite decide_False. Qed.

Lemma Clean_nonempty path : Clean path ≠ "".
Proof.
  destruct (decide (path = "")) as [->|H]; [done|].
  rewrite Clean_render by done.
  by destruct (render_reads_back _ _ (stack_of_out path)) as (? & _).
Qed.

Lemma rooted_Clean path : path ≠ "" → rooted (Clean path) = rooted path.
Proof.
  intros H. rewrite Clean_render by done.
  by destruct (render_reads_back _ _ (stack_of_out path)) as (_ & ? & _).
Qed.

Lemma stack_of_Clean path : path ≠ "" → stack_of (Clean path) = stack_of path.
Proof.
  intros H. unfold stack_of at 1. rewrite rooted_Clean by done.
  rewrite Clean_render by done.
  by destruct (render_reads_back _ _ (stack_of_out path)) as (_ & _ & ?).
Qed.

(** [Clean] is idempotent. *)
Lemma Clean_idemp path : Clean (Clean path) = Clean path.
Proof.
  destruct (decide (path = "")) as [->|H]; [done|].
  rewrite (Clean_render (Clean path)) by apply Clean_nonempty.
  rewrite rooted_Clean, stack_of_Clean by done. by rewrite <- Clean_render.
Qed.

(** Cleaning [a/b] continues the cleaning of [a] with the elements of [b]. *)
Lemma Clean_app a b :
  a ≠ "" →
  Clean (a +:+ "/" +:+ b)
  = render (rooted a)
      (fold_left (clean_step (rooted a)) (split_sep b) (stack_of a)).
Proof.
  intros H. rewrite Clean_render by (by destruct a).
  unfold stack_of. rewrite rooted_app by done.
  by rewrite split_sep_app_sep, fold_left_app.
Qed.

Lemma Clean_Clean_app a b :
  a ≠ "" → Clean (Clean a +:+ "/" +:+ b) = Clean (a +:+ "/" +:+ b).
Proof.
  intros H. rewrite !Clean_app by (done || apply Clean_nonempty).
  by rewrite rooted_Clean, stack_of_Clean.
Qed.

(** *** Joining a directory and a name *)

Lemma Join_two d name : d ≠ "" → Join [d; name] = Clean (d +:+ "/" +:+ name).
Proof. intros H. simpl. by rewrite decide_False. Qed.

Lemma Join_one name : name ≠ "" → Join [""; name] = Clean name.
Proof.
  intros H. change (Join [""; name]) with (Join [name]). simpl.
  by rewrite decide_False.
Qed.

Lemma Clean_plain name : plain name → Clean name = name.
Proof.
  intros Hp. pose proof Hp as (Hs & Hne & _).
  rewrite Clean_render by done. unfold stack_of.
  rewrite (split_sep_no_sep _ Hs), (rooted_no_sep _ Hs). simpl.
  by rewrite (plain_step _ _ _ Hp).
Qed.

Lemma render_cons r name out :
  render r (name :: out)
  = match out with
    | [] => if r then "/" +:+ name else name
    | _ => render r out +:+ "/" +:+ name
    end.
Proof.
  unfold render. simpl. rewrite join_sep_snoc.
  destruct out as [|x out]; [done|].
  assert (Hne : rev (x :: out) ≠ []).
  { intros H. apply (f_equal (@rev _)) in H. by rewrite rev_involutive in H. }
  destruct (rev (x :: out)) as [|y l]; [done|]. by destruct r.
Qed.

Lemma Join_plain d name :
  d ≠ "" → plain name →
  Join [d; name] = render (rooted d) (name :: stack_of d).
Proof.
  intros Hd Hp. rewrite Join_two, Clean_app by done.
  rewrite (split_sep_no_sep name) by apply Hp. simpl.
  by rewrite (plain_step _ _ _ Hp).
Qed.


Lemma split_sep_empty s : split_sep s = [""] → s = "".
Proof. intros H. by rewrite <- (join_split s), H. Qed.

Lemma dirname_in_dir d name :
  d ≠ "" → no_sep name = true → dirname (d +:+ "/" +:+ name) = d.
Proof.
  intros Hd Hn. unfold dirname.
  rewrite split_sep_app_sep, (split_sep_no_sep _ Hn).
  pose proof (split_sep_nonempty d) as Hne.
  pose proof (split_sep_empty d) as He.
  pose proof (join_split d) as Hj.
  destruct (split_sep d) as [|x xs]; [done|].
  destruct xs as [|x' xs].
  - destruct x as [|c x]; [by destruct Hd; apply He|]. simpl. done.
  - rewrite <- Hj. change ((x :: x' :: xs) ++ [name])
      with (x :: (x' :: xs) ++ [name]).
    destruct x as [|c x].
    + destruct ((x' :: xs) ++ [name]) as [|y [|y' ys]] eqn:Hl.
      * by destruct xs.
      * by destruct xs.
      * rewrite <- Hl. change ("" :: (x' :: xs) ++ [name])
          with (("" :: x' :: xs) ++ [name]). by rewrite removelast_last.
    + destruct ((x' :: xs) ++ [name]) as [|y ys] eqn:Hl.
      * by destruct xs.
      * rewrite <- Hl. change (String c x :: (x' :: xs) ++ [name])
          with ((String c x :: x' :: xs) ++ [name]). by rewrite removelast_last.
Qed.

(** The target of a plain name lies in the cleaned target directory. *)
Lemma dirname_Join d name :
  d ≠ "" → plain name → dirname (Join [d; name]) = Clean d.
Proof.
  intros Hd Hp. rewrite Join_plain, render_cons, Clean_render by done.
  pose proof (stack_of_out d) as Hout.
  destruct (stack_of d) as [|x out] eqn:Hs.
  - destruct (rooted d); unfold dirname, render.
    + change ("/" +:+ name) with ("" +:+ "/" +:+ name).
      rewrite split_sep_app_sep, (split_sep_no_sep name) by apply Hp. done.
    + rewrite (split_sep_no_sep name) by apply Hp. by destruct name.
  - apply dirname_in_dir; [|apply Hp].
    by destruct (render_reads_back _ _ Hout) as (? & _).
Qed.


(** Names of the form [pkg_base]. *)
Lemma underscore_name a b :
  a +:+ "_" +:+ b ≠ "" ∧ a +:+ "_" +:+ b ≠ "." ∧ a +:+ "_" +:+ b ≠ "..".
Proof.
  destruct a as [|c1 [|c2 [|c3 a]]]; simpl; split_and!; intros H;
    by simplify_eq.
Qed.

Lemma Base_no_sep file : Base file = "/" ∨ no_sep (Base file) = true.
Proof.
  unfold Base. case_decide; [by right|].
  destruct (last _) as [e|] eqn:Hl; [|by left]. right.
  apply last_Some in Hl as [l' Hl].
  pose proof (split_sep_elements file) as Hall.
  rewrite Forall_forall in Hall. apply Hall.
  apply (list_elem_of_filter (λ e, e ≠ "")). rewrite Hl.
  apply elem_of_app. right. by apply list_elem_of_singleton.
Qed.

Lemma target_name_plain pkg file :
  no_sep pkg = true → Base file ≠ "/" → plain ((pkg +:+ "_") +:+ Base file).
Proof.
  intros Hp Hb. rewrite append_assoc.
  destruct (underscore_name pkg (Base file)) as (? & ? & ?).
  split_and!; try done. rewrite !no_sep_app, Hp. simpl.
  by destruct (Base_no_sep file).
Qed.

Lemma length_append a b :
  String.length (a +:+ b) = String.length a + String.length b.
Proof.
  induction a as [|x a IH]; [done|].
  change (S (String.length (a +:+ b)) = S (String.length a + String.length b)).
  by rewrite IH.
Qed.

Lemma append_inj_r a b c : a +:+ c = b +:+ c → a = b.
Proof.
  revert b. induction a as [|x a IH]; intros [|y b] H.
  - done.
  - apply (f_equal String.length) in H. rewrite !length_append in H.
    simpl in H. lia.
  - apply (f_equal String.length) in H. rewrite !length_append in H.
    simpl in H. lia.
  - injection H as -> H. f_equal. by apply IH.
Qed.

Lemma Join_cons a l : a ≠ "" → Join (a :: l) = Clean (join_sep (a :: l)).
Proof.
  intros H. change (Join (a :: l))
    with (if decide (a = "") then Join l else Clean (join_sep (a :: l))).
  by rewrite decide_False.
Qed.

Lemma join_sep_app l1 l2 :
  l1 ≠ [] → l2 ≠ [] →
  join_sep (l1 ++ l2) = join_sep l1 +:+ "/" +:+ join_sep l2.
Proof.
  intros H1 H2. induction l1 as [|b l1 IH]; [done|].
  destruct l1 as [|b' l1].
  - simpl app. by rewrite join_sep_cons.
  - change ((b :: b' :: l1) ++ l2) with (b :: ((b' :: l1) ++ l2)).
    rewrite (join_sep_cons b (b' :: l1)) by done.
    rewrite (join_sep_cons b) by done. rewrite IH by done.
    by rewrite !append_assoc.
Qed.

(** Joining in two steps is joining in one. *)
Lemma Join_nested a l1 l2 :
  a ≠ "" → l2 ≠ [] →
  Join (Join (a :: l1) :: l2) = Join (a :: l1 ++ l2).
Proof.
  intros Ha Hl2. rewrite (Join_cons a l1) by done.
  rewrite (Join_cons (Clean _)) by apply Clean_nonempty.
  rewrite (Join_cons a) by done.
  rewrite (join_sep_cons (Clean _)) by done.
  assert (Hj : join_sep (a :: l1) ≠ "").
  { destruct l1; [done|]. rewrite join_sep_cons by done. by destruct a. }
  rewrite Clean_Clean_app by done.
  change (a :: l1 ++ l2) with ((a :: l1) ++ l2).
  by rewrite join_sep_app.
Qed.

(** *** The parent of a path in [MkdirAll] *)

Lemma length_join_sep_cons e l :
  l ≠ [] →
  String.length (join_sep (e :: l))
  = String.length e + 1 + String.length (join_sep l).
Proof.
  intros H. rewrite join_sep_cons by done. rewrite !length_append. simpl. lia.
Qed.

Lemma length_join_sep_head e l :
  String.length e ≤ String.length (join_sep (e :: l)).
Proof.
  destruct l as [|e' l]; [done|]. rewrite length_join_sep_cons by done. lia.
Qed.

Lemma removelast_short (l : list string) :
  length l ≤ 1 → removelast l = [].
Proof. destruct l as [|e [|e' l]]; simpl; [done|done|lia]. Qed.

Lemma length_join_removelast l :
  2 ≤ length l →
  String.length (join_sep (removelast l)) < String.length (join_sep l).
Proof.
  induction l as [|e l IH]; [simpl; lia|]. intros Hl.
  destruct l as [|e' l]; [simpl in Hl; lia|].
  change (removelast (e :: e' :: l)) with (e :: removelast (e' :: l)).
  rewrite (length_join_sep_cons e (e' :: l)) by done.
  destruct l as [|e'' l].
  - simpl. lia.
  - assert (Hne : removelast (e' :: e'' :: l) ≠ []) by done.
    rewrite (length_join_sep_cons e (removelast (e' :: e'' :: l))) by done.
    assert (2 ≤ length (e' :: e'' :: l)) by (simpl; lia).
    specialize (IH ltac:(done)). lia.
Qed.

Lemma length_join_strip l :
  String.length (join_sep (strip_trailing l)) ≤ String.length (join_sep l).
Proof.
  induction l as [|e l IH]; [done|]. simpl strip_trailing.
  destruct (strip_trailing l) as [|x xs] eqn:Hs.
  - case_decide; [simpl; lia|]. apply length_join_sep_head.
  - assert (l ≠ []) by (by destruct l).
    rewrite (length_join_sep_cons e (x :: xs)), (length_join_sep_cons e l)
      by done. lia.
Qed.

Lemma mkdir_parent_shorter path :
  mkdir_parent path ≠ "" →
  String.length (mkdir_parent path) < String.length path.
Proof.
  unfold mkdir_parent. intros Hne.
  pose proof (length_join_strip (split_sep path)) as Hs.
  rewrite join_split in Hs.
  destruct (decide (2 ≤ length (strip_trailing (split_sep path)))) as [H2|H2].
  - pose proof (length_join_removelast _ H2). lia.
  - rewrite removelast_short in Hne by lia. done.
Qed.

(** ** The name of an operation *)

(** X1.  [policyOp.String] names every operation apart: two operations
    with the same name are the same operation.  In particular only
    [Install] is called "Install" and only [Remove] is called "Remove". *)
Theorem policyOp_String_inj a b :
  policyOp_String a = policyOp_String b → a = b.
Proof.
  unfold policyOp_String.
  destruct (N.eqb_spec a Remove) as [Ha1|Ha1];
    destruct (N.eqb_spec a Install) as [Ha2|Ha2];
    destruct (N.eqb_spec b Remove) as [Hb1|Hb1];
    destruct (N.eqb_spec b Install) as [Hb2|Hb2];
    try congruence; try (simpl; discriminate).
  intros H. apply String.app_inj in H. apply append_inj_r in H.
  apply (f_equal NilEmpty.uint_of_string) in H. rewrite !NilEmpty.usu in H.
  injection H as H. by apply Unsigned.to_uint_inj.
Qed.

Lemma policyOp_String_inj_witness :
  policyOp_String Install = "Install"
  ∧ policyOp_String Remove = "Remove"
  ∧ policyOp_String 42%N = "policyOp(42)"
  ∧ (7%N : policyOp) = 7%N.
Proof.
  split_and!; [reflexivity..|].
  apply policyOp_String_inj. reflexivity.
Defined.

(** ** Where a target lies *)

Lemma Base_plain_name name : plain name → Base name = name.
Proof.
  intros (Hs & Hne & _). unfold Base. rewrite decide_False by done.
  rewrite (split_sep_no_sep _ Hs). by rewrite filter_cons_True.
Qed.

Lemma Base_Join d name : plain name → Base (Join [d; name]) = name.
Proof.
  intros Hp. pose proof Hp as (Hs & Hne & _).
  destruct (decide (d = "")) as [->|Hd].
  - rewrite Join_one by done. rewrite Clean_plain by done.
    by apply Base_plain_name.
  - rewrite Join_plain, render_cons by done.
    destruct (stack_of d) as [|x out].
    + destruct (rooted d); [|by apply Base_plain_name].
      change ("/" +:+ name) with ("" +:+ "/" +:+ name). by apply Base_in_dir.
    + by apply Base_in_dir.
Qed.

(** X2.  When the package name holds no separator, the target of a match
    lies directly in the target directory and is called [pkgName_base]:
    the prefix cannot lead out of the directory. *)
Theorem target_stays_in_target_directory targetDir pkgName file :
  targetDir ≠ "" → no_sep pkgName = true → Base file ≠ "/" →
  dirname (target_path targetDir (pkgName +:+ "_") file) = Clean targetDir
  ∧ Base (target_path targetDir (pkgName +:+ "_") file)
    = (pkgName +:+ "_") +:+ Base file.
Proof.
  intros Hd Hp Hb. pose proof (target_name_plain _ _ Hp Hb) as Hplain.
  unfold target_path. split; [by apply dirname_Join|by apply Base_Join].
Qed.

Lemma target_stays_in_target_directory_witness :
  dirname (target_path "/var/lib/snappy/apparmor/templates/" ("pkg" +:+ "_")
             "/snap/pkg/meta/framework-policy/apparmor/templates/default")
  = "/var/lib/snappy/apparmor/templates"
  ∧ Base (target_path "/var/lib/snappy/apparmor/templates/" ("pkg" +:+ "_")
            "/snap/pkg/meta/framework-policy/apparmor/templates/default")
    = "pkg_default".
Proof.
  destruct (target_stays_in_target_directory
              "/var/lib/snappy/apparmor/templates/" "pkg"
              "/snap/pkg/meta/framework-policy/apparmor/templates/default")
    as [H1 H2]; [discriminate|reflexivity|vm_compute; discriminate|].
  rewrite H1, H2. split; vm_compute; reflexivity.
Defined.

(** A package name with a separator can lead out of it. *)
Example target_can_leave_target_directory :
  target_path "/var/lib/snappy/apparmor/policygroups" ("../x" +:+ "_") "net"
  = "/var/lib/snappy/apparmor/x_net".
Proof. vm_compute. reflexivity. Qed.

(** X3.  The target does not depend on how the target directory is
    spelled: a target directory and its cleaned form give the same
    target. *)
Theorem target_of_cleaned_directory targetDir suffix file :
  targetDir ≠ "" →
  target_path (Clean targetDir) suffix file
  = target_path targetDir suffix file.
Proof.
  intros Hd. unfold target_path.
  rewrite !Join_two by (done || apply Clean_nonempty).
  by apply Clean_Clean_app.
Qed.

Lemma target_of_cleaned_directory_witness :
  target_path "/var//lib/./snappy/x/../seccomp/" "p_" "/src/net"
  = target_path "/var/lib/snappy/seccomp" "p_" "/src/net".
Proof.
  rewrite <- (target_of_cleaned_directory "/var//lib/./snappy/x/../seccomp/")
    by discriminate.
  vm_compute. reflexivity.
Defined.

(** ** Running the calls *)

Lemma Directory_not_regular perm : IsRegular (mode_of (Directory perm)) = false.
Proof.
  unfold IsRegular, mode_of. apply N.eqb_neq. intros H.
  assert (Hb : N.testbit (N.land (N.lor ModeDir perm) ModeType) 31 = true).
  { rewrite N.land_spec, N.lor_spec.
    replace (N.testbit ModeDir 31) with true by (vm_compute; reflexivity).
    replace (N.testbit ModeType 31) with true by (vm_compute; reflexivity).
    reflexivity. }
  rewrite H in Hb. discriminate Hb.
Qed.

Lemma IsRegular_mode_of n : IsRegular (mode_of n) = true ↔ ∃ c, n = Regular c.
Proof.
  split; [|by intros [c ->]].
  destruct n as [c|perm|target| | |].
  - by eauto.
  - by rewrite Directory_not_regular.
  - intros H. vm_compute in H. discriminate H.
  - intros H. vm_compute in H. discriminate H.
  - intros H. vm_compute in H. discriminate H.
  - intros H. vm_compute in H. discriminate H.
Qed.

Lemma IsRegular_other n :
  (∀ c, n ≠ Regular c) → IsRegular (mode_of n) = false.
Proof.
  intros H. destruct (IsRegular (mode_of n)) eqn:E; [|done].
  apply IsRegular_mode_of in E as [c ->]. by destruct (H c).
Qed.

Section run.
Variable fault : call → option errno.
Variable short_write : string → nat.
Variable glob_matches : gmap string node → string → option (list string).

Abbreviation visit := (visit fault short_write).
Abbreviation range_files := (range_files fault short_write).
Abbreviation helper := (helper fault short_write glob_matches).
Abbreviation arrives_at := (arrives_at fault short_write glob_matches).
Abbreviation os_Remove := (os_Remove fault).
Abbreviation os_Lstat := (os_Lstat fault).
Abbreviation os_MkdirAll := (os_MkdirAll fault).
Abbreviation run_deferred := (run_deferred fault).

Lemma os_Lstat_run name w :
  os_Lstat name w =
  (match fault (CallLstat name) with
   | Some e => inl (PathErr "lstat" name e)
   | None => match lookup_path (tree w) name with
             | inl e => inl (PathErr "lstat" name e)
             | inr n => inr (mode_of n)
             end
   end, logged (CallLstat name) w).
Proof.
  unfold os_Lstat, mbind, io_bind, record, get_tree, mret, io_ret; simpl.
  destruct (fault _); [reflexivity|]. destruct (lookup_path _ _); reflexivity.
Qed.

Lemma os_Remove_run name w :
  os_Remove name w =
  match fault (CallRemove name) with
  | Some e => (Some (PathErr "remove" name e), logged (CallRemove name) w)
  | None =>
      match lookup_path (tree w) name with
      | inl e => (Some (PathErr "remove" name e), logged (CallRemove name) w)
      | inr n =>
          if match n with Directory _ => empty_dir (tree w) (Clean name)
                        | _ => true end
          then (None, World (delete (Clean name) (tree w))
                        (log w ++ [CallRemove name]))
          else (Some (PathErr "remove" name ENOTEMPTY),
                logged (CallRemove name) w)
      end
  end.
Proof.
  unfold os_Remove, mbind, io_bind, record, get_tree, mret, io_ret; simpl.
  destruct (fault _); [reflexivity|].
  destruct (lookup_path _ _) as [e|[]]; try reflexivity.
  destruct (empty_dir _ _); reflexivity.
Qed.

Lemma run_deferred_run deferred w :
  run_deferred deferred w =
  (tt, World (tree w) (log w ++ map CallClose deferred)).
Proof.
  revert w. induction deferred as [|f d IH]; intros [t l]; simpl.
  - by rewrite app_nil_r.
  - unfold mbind, io_bind, deferred_close, File_Close, record, mret, io_ret;
      simpl. rewrite IH. simpl. by rewrite <- app_assoc.
Qed.

Lemma range_files_app op targetDir suffix pre post deferred w :
  range_files op targetDir suffix (pre ++ post) deferred w =
  match range_files op targetDir suffix pre deferred w with
  | ((None, deferred'), w') => range_files op targetDir suffix post deferred' w'
  | r => r
  end.
Proof.
  revert deferred w. induction pre as [|f pre IH]; intros deferred w; simpl.
  - reflexivity.
  - unfold mbind, io_bind.
    destruct (visit _ _ _ _ _ w) as [[[e|] d] w']; [reflexivity|apply IH].
Qed.

Lemma helper_run op glob targetDir suffix w w1 files :
  os_MkdirAll targetDir 493 w = (None, w1) →
  glob_matches (tree w1) glob = Some files →
  helper op glob targetDir suffix w =
  let '((err, deferred), w2) :=
    range_files op targetDir suffix files [] (logged (CallGlob glob) w1) in
  (err, World (tree w2) (log w2 ++ map CallClose deferred)).
Proof.
  intros Hmk Hglob. unfold helper, mbind, io_bind. rewrite Hmk.
  unfold filepath_Glob, mbind, io_bind, record, get_tree, mret, io_ret.
  simpl. rewrite Hglob.
  destruct (range_files _ _ _ _ _ _) as [[err d] w2].
  by rewrite run_deferred_run.
Qed.

(** Where [helper] ends when the match it has arrived at fails. *)
Lemma helper_fails_at op glob targetDir suffix pre file post w deferred w2
    e deferred' w3 :
  arrives_at op glob targetDir suffix pre file post w deferred w2 →
  visit op targetDir suffix file deferred w2 = ((Some e, deferred'), w3) →
  helper op glob targetDir suffix w =
  (Some e, World (tree w3) (log w3 ++ map CallClose deferred')).
Proof.
  intros (w1 & Hmk & Hglob & Hpre) Hvisit.
  rewrite (helper_run _ _ _ _ _ _ _ Hmk Hglob), range_files_app, Hpre.
  simpl. unfold mbind, io_bind. by rewrite Hvisit.
Qed.

(** *** The body of the loop *)

Lemma visit_stat_error op targetDir suffix file deferred w cause :
  (os_Lstat file w).1 = inl cause →
  visit op targetDir suffix file deferred w =
  ((Some (StatError file cause), deferred), logged (CallLstat file) w).
Proof.
  intros H. unfold visit, mbind, io_bind. rewrite os_Lstat_run in *.
  simpl in H. by rewrite H.
Qed.

Lemma visit_not_regular op targetDir suffix file deferred w n :
  fault (CallLstat file) = None →
  lookup_path (tree w) file = inr n →
  (∀ c, n ≠ Regular c) →
  visit op targetDir suffix file deferred w =
  ((Some (NotRegularFile op file), deferred), logged (CallLstat file) w).
Proof.
  intros Hf Hl Hn. unfold visit, mbind, io_bind.
  rewrite os_Lstat_run, Hf, Hl. by rewrite (IsRegular_other _ Hn).
Qed.

Lemma visit_Remove_regular targetDir suffix file deferred w c :
  fault (CallLstat file) = None →
  lookup_path (tree w) file = inr (Regular c) →
  visit Remove targetDir suffix file deferred w =
  let targetFile := target_path targetDir suffix file in
  let '(err, w') := os_Remove targetFile (logged (CallLstat file) w) in
  ((match err with
    | Some err => Some (RemoveError targetFile err)
    | None => None
    end, deferred), w').
Proof.
  intros Hf Hl. unfold visit, mbind, io_bind.
  rewrite os_Lstat_run, Hf, Hl. simpl.
  destruct (os_Remove _ _) as [[err|] w']; reflexivity.
Qed.

(** Removing never brings an entry into being. *)
Lemma visit_Remove_absent targetDir suffix file deferred w r w' k :
  visit Remove targetDir suffix file deferred w = (r, w') →
  tree w !! k = None → tree w' !! k = None.
Proof.
  unfold visit, mbind, io_bind. rewrite os_Lstat_run.
  destruct (fault (CallLstat file)) as [e0|]; [by intros [= <- <-]|].
  destruct (lookup_path _ _) as [e1|n1]; [by intros [= <- <-]|].
  destruct (negb _); [by intros [= <- <-]|]. simpl.
  rewrite os_Remove_run. simpl.
  destruct (fault (CallRemove _)) as [e2|]; [by intros [= <- <-]|].
  destruct (lookup_path _ _) as [e3|n3]; [by intros [= <- <-]|].
  destruct (match n3 with Directory _ => _ | _ => true end);
    intros [= <- <-] Hk; simpl; [|done].
  rewrite lookup_delete. by case_decide.
Qed.

(** A removal that reports no error found its target. *)
Lemma visit_Remove_success targetDir suffix file deferred w deferred' w' :
  visit Remove targetDir suffix file deferred w = ((None, deferred'), w') →
  ∃ n, lookup_path (tree w) (target_path targetDir suffix file) = inr n.
Proof.
  unfold visit, mbind, io_bind. rewrite os_Lstat_run.
  destruct (fault (CallLstat file)) as [e0|]; [by intros [=]|].
  destruct (lookup_path _ file) as [e1|n1]; [by intros [=]|].
  destruct (negb _); [by intros [=]|]. simpl.
  rewrite os_Remove_run. simpl.
  destruct (fault (CallRemove _)) as [e2|]; [by intros [=]|].
  destruct (lookup_path _ _) as [e3|n3]; [by intros [=]|]. eauto.
Qed.

Lemma range_files_Remove_missing targetDir suffix files deferred w file :
  file ∈ files →
  lookup_path (tree w) (target_path targetDir suffix file) = inl ENOENT →
  (range_files Remove targetDir suffix files deferred w).1.1 ≠ None.
Proof.
  revert deferred w. induction files as [|f files IH]; intros deferred w Hin Hmiss.
  - by apply elem_of_nil in Hin.
  - simpl. unfold mbind, io_bind.
    destruct (visit _ _ _ _ _ w) as [[[e|] d] w'] eqn:Hv; [done|].
    apply elem_of_cons in Hin as [->|Hin].
    + apply visit_Remove_success in Hv as [n Hn]. congruence.
    + apply IH; [done|]. revert Hmiss. unfold lookup_path.
      case_decide; [done|].
      destruct (tree w !! _) eqn:Hk; [done|].
      by rewrite (visit_Remove_absent _ _ _ _ _ _ _ _ Hv Hk).
Qed.

(** *** Making the target directory *)

Lemma only_adds_dirs_refl perm w : only_adds_dirs perm w w.
Proof. split; [done|]. intros k. by left. Qed.

Lemma only_adds_dirs_trans perm w1 w2 w3 :
  only_adds_dirs perm w1 w2 → only_adds_dirs perm w2 w3 →
  only_adds_dirs perm w1 w3.
Proof.
  intros [Hl1 Ht1] [Hl2 Ht2]. split; [congruence|]. intros k.
  destruct (Ht1 k) as [H1|[H1 H1']], (Ht2 k) as [H2|[H2 H2']].
  - left. congruence.
  - right. split; congruence.
  - right. split; congruence.
  - right. split; congruence.
Qed.

Lemma os_Mkdir_adds name perm w :
  only_adds_dirs perm w (os_Mkdir fault name perm w).2.
Proof.
  unfold os_Mkdir, mbind, io_bind, get_tree, put_tree, mret, io_ret.
  destruct (fault _) as [e|]; [apply only_adds_dirs_refl|].
  case_decide; [apply only_adds_dirs_refl|].
  destruct (tree w !! Clean name) as [n|] eqn:Hk; [apply only_adds_dirs_refl|].
  destruct (stat _ _) as [e|[c|p|t| | |]]; try apply only_adds_dirs_refl.
  split; [done|]. intros k. simpl.
  destruct (decide (k = Clean name)) as [->|Hne].
  - right. by rewrite lookup_insert_eq.
  - left. by rewrite lookup_insert_ne.
Qed.

Lemma MkdirAll_rec_adds fuel path perm w :
  only_adds_dirs perm w (MkdirAll_rec fault fuel path perm w).2.
Proof.
  revert path w. induction fuel as [|fuel IH]; intros path w; simpl;
    unfold mbind, io_bind, get_tree, mret, io_ret.
  all: destruct (stat (tree w) path) as [e|[c|p|t| | |]];
    try apply only_adds_dirs_refl.
  all: case_decide; try apply only_adds_dirs_refl.
  all: try (pose proof (IH (mkdir_parent path) w) as H1;
            destruct (MkdirAll_rec fault fuel (mkdir_parent path) perm w)
              as [[e1|] w1]; simpl in H1 |- *; [done|]).
  all: match goal with
       | |- context [os_Mkdir fault ?p0 ?pm ?w1] =>
           pose proof (os_Mkdir_adds p0 pm w1) as H2;
           destruct (os_Mkdir fault p0 pm w1) as [[e2|] w2];
           simpl in H2 |- *;
           [destruct (lookup_path _ _) as [e3|[c3|p3|t3| | |]]; simpl|]
       end.
  all: first [exact H2 | by eapply only_adds_dirs_trans].
Qed.

(** [MkdirAll] only ever adds directories. *)
Lemma os_MkdirAll_adds path perm w :
  only_adds_dirs perm (logged (CallMkdirAll path) w)
    (os_MkdirAll path perm w).2.
Proof. apply MkdirAll_rec_adds. Qed.


(** *** Errors of a single match *)

(** C7.  A match that is not a regular file -- a directory, a device, a
    pipe, a socket or a symbolic link, whatever the link points to -- makes
    [helper] fail with [NotRegularFile], which names the operation and the
    path; a match whose metadata cannot be read makes it fail with
    [StatError].  In both cases the tree is as it was when the match was
    reached. *)
Theorem irregular_match_is_rejected op glob targetDir suffix pre file post
    w deferred w2 :
  arrives_at op glob targetDir suffix pre file post w deferred w2 →
  let final :=
    World (tree w2) (log w2 ++ CallLstat file :: map CallClose deferred) in
  (∀ n, fault (CallLstat file) = None →
        lookup_path (tree w2) file = inr n →
        (∀ c, n ≠ Regular c) →
        helper op glob targetDir suffix w
        = (Some (NotRegularFile op file), final))
  ∧ (∀ e, fault (CallLstat file) = Some e
          ∨ (fault (CallLstat file) = None
             ∧ lookup_path (tree w2) file = inl e) →
          helper op glob targetDir suffix w
          = (Some (StatError file (PathErr "lstat" file e)), final)).
Proof.
  intros Harr final. split.
  - intros n Hf Hl Hn.
    rewrite (helper_fails_at _ _ _ _ _ _ _ _ _ _ _ _ _ Harr
               (visit_not_regular _ _ _ _ _ _ _ Hf Hl Hn)).
    unfold final. simpl. by rewrite <- app_assoc.
  - intros e He.
    assert (Hs : (os_Lstat file w2).1 = inl (PathErr "lstat" file e)).
    { rewrite os_Lstat_run. simpl. by destruct He as [->|[-> ->]]. }
    rewrite (helper_fails_at _ _ _ _ _ _ _ _ _ _ _ _ _ Harr
               (visit_stat_error _ _ _ _ _ _ _ Hs)).
    unfold final. simpl. by rewrite <- app_assoc.
Qed.

(** C2.  [Remove] for a regular source whose target does not exist fails
    with a [RemoveError] that names the target, and leaves the tree as it
    was.  However many matches there are and wherever the one without a
    target stands among them, [helper] does not report success. *)
Theorem remove_of_missing_target_fails glob targetDir suffix file :
  let targetFile := target_path targetDir suffix file in
  (∀ pre post w deferred w2 c,
     arrives_at Remove glob targetDir suffix pre file post w deferred w2 →
     fault (CallLstat file) = None →
     lookup_path (tree w2) file = inr (Regular c) →
     lookup_path (tree w2) targetFile = inl ENOENT →
     ∃ cause,
       helper Remove glob targetDir suffix w
       = (Some (RemoveError targetFile cause),
          World (tree w2)
            (log w2 ++ [CallLstat file; CallRemove targetFile]
             ++ map CallClose deferred))
       ∧ Op cause = "remove" ∧ Path cause = targetFile
       ∧ (fault (CallRemove targetFile) = None → Err cause = ENOENT))
  ∧ (∀ files w w1,
       os_MkdirAll targetDir 493 w = (None, w1) →
       glob_matches (tree w1) glob = Some files →
       file ∈ files →
       lookup_path (tree w1) targetFile = inl ENOENT →
       (helper Remove glob targetDir suffix w).1 ≠ None).
Proof.
  intros targetFile. subst targetFile. split.
  - intros pre post w deferred w2 c Harr Hf Hl Hmiss.
    pose proof (visit_Remove_regular targetDir suffix file deferred w2 c Hf Hl)
      as Hv.
    cbv zeta in Hv. rewrite os_Remove_run in Hv. simpl in Hv.
    rewrite Hmiss in Hv.
    destruct (fault (CallRemove (target_path targetDir suffix file)))
      as [e|] eqn:Hfr.
    + exists (PathErr "remove" (target_path targetDir suffix file) e).
      rewrite (helper_fails_at _ _ _ _ _ _ _ _ _ _ _ _ _ Harr Hv).
      simpl. rewrite <- !app_assoc. done.
    + exists (PathErr "remove" (target_path targetDir suffix file) ENOENT).
      rewrite (helper_fails_at _ _ _ _ _ _ _ _ _ _ _ _ _ Harr Hv).
      simpl. rewrite <- !app_assoc. done.
  - intros files w w1 Hmk Hglob Hin Hmiss.
    rewrite (helper_run _ _ _ _ _ _ _ Hmk Hglob).
    pose proof (range_files_Remove_missing targetDir suffix files []
                  (logged (CallGlob glob) w1) file Hin Hmiss) as Hr.
    by destruct (range_files _ _ _ _ _ _) as [[err d] w2].
Qed.

(** C4.  [helper] takes the matches in order and returns at the first one
    that fails: its result is the error of that match alone, and the tree
    is the one that match left.  The matches after it play no part: all
    that follows in the log is the closing of the files opened so far, and
    the outcome is the same whatever matches come after the failing one. *)
Theorem first_error_ends_the_loop op glob targetDir suffix pre file post
    w deferred w2 e deferred' w3 :
  arrives_at op glob targetDir suffix pre file post w deferred w2 →
  visit op targetDir suffix file deferred w2 = ((Some e, deferred'), w3) →
  helper op glob targetDir suffix w
  = (Some e, World (tree w3) (log w3 ++ map CallClose deferred'))
  ∧ ∀ post' deferred0 w0,
      (range_files op targetDir suffix (pre ++ [file]) deferred0 w0).1.1
      ≠ None →
      range_files op targetDir suffix (pre ++ file :: post') deferred0 w0
      = range_files op targetDir suffix (pre ++ [file]) deferred0 w0.
Proof.
  intros Harr Hvisit. split.
  - exact (helper_fails_at _ _ _ _ _ _ _ _ _ _ _ _ _ Harr Hvisit).
  - intros post' deferred0 w0. rewrite !range_files_app.
    destruct (range_files op targetDir suffix pre deferred0 w0)
      as [[[e0|] d0] w0']; [done|].
    simpl. unfold mbind, io_bind.
    by destruct (visit _ _ _ _ _ w0') as [[[e1|] d1] w1].
Qed.


(** *** Installing one match *)


Lemma lookup_path_Some t path n :
  lookup_path t path = inr n → path ≠ "" ∧ t !! Clean path = Some n.
Proof.
  unfold lookup_path. case_decide; [done|].
  destruct (t !! Clean path) as [n'|]; [|done]. by intros [= ->].
Qed.

Lemma realpath_not_link fuel t key :
  (∀ target, t !! key ≠ Some (Symlink target)) →
  realpath fuel t key = inr key.
Proof.
  intros H. destruct fuel; simpl;
    destruct (t !! key) as [[c|p|target| | |]|] eqn:Hk; try done;
    by destruct (H target).
Qed.

Lemma os_Open_regular file w c :
  fault (CallOpen file) = None →
  lookup_path (tree w) file = inr (Regular c) →
  os_Open fault file w = (inr (Clean file), logged (CallOpen file) w).
Proof.
  intros Hf [Hne Hk]%lookup_path_Some.
  unfold os_Open, mbind, io_bind, record, get_tree, mret, io_ret.
  cbn [tree log logged].
  rewrite Hf, decide_False by done.
  rewrite realpath_not_link by (intros target; by rewrite Hk).
  by rewrite Hk.
Qed.





(** *** Trees that grow *)





(** When [MkdirAll] reports no error the directory is there. *)
Lemma os_MkdirAll_makes path perm w w1 :
  os_MkdirAll path perm w = (None, w1) → is_dir (tree w1) path = true.
Proof.
  unfold os_MkdirAll, mbind, io_bind, record.
  generalize (logged (CallMkdirAll path) w). clear w. intros w.
  assert (Hlast : ∀ w0 w2 : world,
    (let '(a0, w'0) := os_Mkdir fault path perm w0 in
     match a0 with
     | Some e0 =>
         λ w2 : world,
           match lookup_path (tree w2) path with
           | inr (Directory _) => λ w3 : world, (None, w3)
           | _ => λ w3 : world, (Some e0, w3)
           end w2
     | None => λ w2 : world, (None, w2)
     end w'0) = (None, w2) → is_dir (tree w2) path = true).
  { intros w0 w2. unfold os_Mkdir, mbind, io_bind, get_tree, put_tree,
      mret, io_ret.
    assert (Hdir : ∀ w3 : world,
      match lookup_path (tree w3) path with
      | inr (Directory _) => λ w4 : world, (None, w4)
      | _ => λ w4 : world, (Some (PathErr "mkdir" path EEXIST), w4)
      end w3 = (None, w2) → is_dir (tree w2) path = true).
    { intros w3. destruct (lookup_path (tree w3) path) as [e|n] eqn:Hl;
        [done|]. destruct n as [c|p|t| | |]; try done. intros [= <-].
      apply lookup_path_Some in Hl as [Hne Hk]. unfold is_dir, stat.
      rewrite decide_False by done.
      rewrite realpath_not_link by (intros target; by rewrite Hk).
      by rewrite Hk. }
    destruct (fault (CallMkdir path)) as [e|].
    { destruct (lookup_path (tree w0) path) as [e'|n] eqn:Hl; [done|].
      destruct n as [c|p|t| | |]; try done. intros [= <-].
      apply lookup_path_Some in Hl as [Hne Hk]. unfold is_dir, stat.
      rewrite decide_False by done.
      rewrite realpath_not_link by (intros target; by rewrite Hk).
      by rewrite Hk. }
    case_decide as Hne.
    { by destruct (lookup_path (tree w0) path) as [e'|[c|p|t| | |]] eqn:Hl;
        unfold lookup_path in Hl; rewrite decide_True in Hl by done. }
    destruct (tree w0 !! Clean path) as [n|] eqn:Hk.
    { apply Hdir. }
    destruct (stat (tree w0) (dirname (Clean path))) as [e|[c|p|t| | |]].
    all: try (destruct (lookup_path (tree w0) path) as [e'|[c'|p'|t'| | |]]
                eqn:Hl; try done;
              apply lookup_path_Some in Hl as [_ Hl]; congruence).
    intros [= <-]. simpl. unfold is_dir, stat. rewrite decide_False by done.
    rewrite realpath_not_link
      by (intros target; by rewrite lookup_insert_eq).
    by rewrite lookup_insert_eq. }
  destruct (String.length path) as [|fuel]; simpl;
    unfold mbind, io_bind, get_tree, mret, io_ret.
  all: unfold is_dir at 1.
  all: destruct (stat (tree w) path) as [e|[c|p|t| | |]] eqn:Hs; try done.
  all: try (intros [= <-]; unfold is_dir; by rewrite Hs).
  all: case_decide; try done.
  all: try apply Hlast.
  destruct (MkdirAll_rec fault fuel (mkdir_parent path) perm w)
    as [[e1|] w1']; [done|]. apply Hlast.
Qed.

(** *** Installing and removing all matches *)











(** *** The round trip *)



(** *** The batch driver *)

Lemma policy_glob instPath cat sub :
  Join [Join [instPath; "meta"; "framework-policy"]; cat; sub; "*"]
  = Join [instPath; "meta"; "framework-policy"; cat; sub; "*"].
Proof.
  destruct (decide (instPath = "")) as [->|Hne].
  - change (Join [""; "meta"; "framework-policy"])
      with (Join ["meta"; "framework-policy"]).
    change (Join [""; "meta"; "framework-policy"; cat; sub; "*"])
      with (Join ["meta"; "framework-policy"; cat; sub; "*"]).
    by rewrite (Join_nested "meta" ["framework-policy"] [cat; sub; "*"]).
  - by rewrite (Join_nested instPath ["meta"; "framework-policy"]
                  [cat; sub; "*"]).
Qed.

(** C5.  [FrameworkOp] runs [helper] once for each of the four
    combinations, apparmor before seccomp and policygroups before
    templates, with the glob [instPath/meta/framework-policy/cat/sub/*],
    the target directory [secbase/cat/sub] and the prefix [pkgName_]
    (paths joined as [filepath.Join] joins them), and it returns the first
    error without running [helper] for the combinations after it. *)
Theorem FrameworkOp_runs_the_four_combinations op pkgName instPath w :
  FrameworkOp fault short_write glob_matches op pkgName instPath w
  = until_error
      (map (λ '(cat, sub),
              helper op
                (Join [instPath; "meta"; "framework-policy"; cat; sub; "*"])
                (Join [secbase; cat; sub])
                (pkgName +:+ "_"))
           combinations) w.
Proof.
  unfold FrameworkOp, combinations.
  cbn [for_each until_error map]. rewrite !policy_glob.
  unfold mbind, io_bind.
  destruct (helper op _ _ _ w) as [[e1|] w1]; [done|].
  destruct (helper op _ _ _ w1) as [[e2|] w2]; [done|].
  cbn [mret io_ret].
  destruct (helper op _ _ _ w2) as [[e3|] w3]; [done|].
  by destruct (helper op _ _ _ w3) as [[e4|] w4].
Qed.

(** *** The target of a match *)

Lemma os_Create_log name w :
  log (os_Create fault name w).2 = log w ++ [CallCreate name].
Proof.
  unfold os_Create, mbind, io_bind, record, get_tree, put_tree, mret, io_ret.
  cbn [tree log logged].
  destruct (fault _) as [e|]; [done|]. case_decide; [done|].
  destruct (realpath _ _ _) as [e|key]; [done|].
  destruct (tree w !! key) as [[c|p|t| | |]|]; try done.
  by destruct (stat _ _) as [e|[c|p|t| | |]].
Qed.

Lemma io_Copy_log dst src w :
  log (io_Copy fault short_write dst src w).2 = log w ++ [CallCopy dst src].
Proof.
  unfold io_Copy, write_file, mbind, io_bind, record, get_tree, put_tree,
    mret, io_ret. cbn [tree log logged].
  destruct (fault _) as [e|]; cbn [tree log logged];
    by destruct (tree w !! dst) as [[c|p|t| | |]|].
Qed.

(** The calls of [visit] for [Install] once the source is open. *)
Lemma visit_Install_log targetDir suffix file deferred w c :
  fault (CallLstat file) = None →
  fault (CallOpen file) = None →
  lookup_path (tree w) file = inr (Regular c) →
  ∃ rest,
    log (visit Install targetDir suffix file deferred w).2
    = log w ++ [CallLstat file; CallOpen file;
                CallCreate (target_path targetDir suffix file)] ++ rest
    ∧ ∀ p, (CallCreate p ∉ rest) ∧ (CallRemove p ∉ rest).
Proof.
  intros Hf1 Hf2 Hl. unfold visit, mbind, io_bind.
  rewrite os_Lstat_run, Hf1, Hl. simpl.
  rewrite (os_Open_regular file _ c) by done.
  set (T := target_path targetDir suffix file).
  set (w1 := logged (CallOpen file) (logged (CallLstat file) w)).
  pose proof (os_Create_log T w1) as Hc.
  destruct (os_Create fault T w1) as [[err|fout] w2]; cbn [snd] in Hc.
  - exists []. cbn [snd mret io_ret]. rewrite Hc. unfold w1, logged.
    cbn [log]. rewrite <- !app_assoc. split; [done|].
    intros p. split; apply not_elem_of_nil.
  - pose proof (io_Copy_log fout (Clean file) w2) as Hcp.
    destruct (io_Copy fault short_write fout (Clean file) w2)
      as [[err|] w3]; cbn [snd] in Hcp.
    + exists [CallCopy fout (Clean file)]. cbn [snd mret io_ret].
      rewrite Hcp, Hc. unfold w1, logged. cbn [log].
      rewrite <- !app_assoc. split; [done|].
      intros p. split; intros Hin; by apply list_elem_of_singleton in Hin.
    + exists [CallCopy fout (Clean file); CallSync fout].
      unfold File_Sync, mbind, io_bind, record, mret, io_ret, logged.
      destruct (fault (CallSync fout)) as [e|]; cbn [snd log].
      * rewrite Hcp, Hc. unfold w1, logged. cbn [log].
        rewrite <- !app_assoc. split; [done|].
        intros p. split; intros Hin;
          repeat (apply elem_of_cons in Hin as [Hin|Hin]; [done|]);
          by apply elem_of_nil in Hin.
      * rewrite Hcp, Hc. unfold w1, logged. cbn [log].
        rewrite <- !app_assoc. split; [done|].
        intros p. split; intros Hin;
          repeat (apply elem_of_cons in Hin as [Hin|Hin]; [done|]);
          by apply elem_of_nil in Hin.
Qed.

Lemma visit_Remove_log targetDir suffix file deferred w c :
  fault (CallLstat file) = None →
  lookup_path (tree w) file = inr (Regular c) →
  log (visit Remove targetDir suffix file deferred w).2
  = log w ++ [CallLstat file; CallRemove (target_path targetDir suffix file)].
Proof.
  intros Hf Hl. rewrite (visit_Remove_regular _ _ _ _ _ c) by done. cbv zeta.
  rewrite os_Remove_run. cbn [tree log logged].
  destruct (fault (CallRemove _)) as [e|];
    [cbn [snd log logged tree]; by rewrite <- app_assoc|].
  destruct (lookup_path (tree w) (target_path targetDir suffix file))
    as [e|n];
    [cbn [snd log logged tree]; by rewrite <- app_assoc|].
  destruct (match n with
            | Directory _ =>
                empty_dir (tree w) (Clean (target_path targetDir suffix file))
            | _ => true
            end);
    cbn [snd log logged tree]; by rewrite <- app_assoc.
Qed.

Lemma policy_target cat sub name :
  (cat, sub) ∈ combinations →
  Join [Join [secbase; cat; sub]; name] = Join [secbase; cat; sub; name].
Proof.
  intros _. by rewrite (Join_nested secbase [cat; sub] [name]).
Qed.

Lemma policy_dir_stack cat sub :
  (cat, sub) ∈ combinations →
  Join [secbase; cat; sub] = secbase +:+ "/" +:+ cat +:+ "/" +:+ sub
  ∧ Join [secbase; cat; sub] ≠ ""
  ∧ rooted (Join [secbase; cat; sub]) = true
  ∧ stack_of (Join [secbase; cat; sub]) ≠ []
  ∧ render true (stack_of (Join [secbase; cat; sub]))
    = Join [secbase; cat; sub].
Proof.
  unfold combinations. intros Hin.
  repeat (apply elem_of_cons in Hin as [[= -> ->]|Hin];
          [by vm_compute|]).
  by apply elem_of_nil in Hin.
Qed.

(** C3.  For each of the four combinations and whatever the package and
    the source, [Install] and [Remove] work on one and the same target:
    [secbase/cat/sub/pkgName_base], the path [filepath.Join] makes of
    these elements.  [Remove] calls [os.Remove] on it, [Install] calls
    [os.Create] on it, and neither creates or removes any other path.  When
    the package name holds no separator the target is that path letter for
    letter. *)
Theorem install_and_remove_share_the_target pkgName cat sub file deferred
    w c :
  (cat, sub) ∈ combinations →
  fault (CallLstat file) = None →
  fault (CallOpen file) = None →
  lookup_path (tree w) file = inr (Regular c) →
  let targetDir := Join [secbase; cat; sub] in
  let suffix := pkgName +:+ "_" in
  let targetFile :=
    Join [secbase; cat; sub; (pkgName +:+ "_") +:+ Base file] in
  target_path targetDir suffix file = targetFile
  ∧ log (visit Remove targetDir suffix file deferred w).2
    = log w ++ [CallLstat file; CallRemove targetFile]
  ∧ (∃ rest,
       log (visit Install targetDir suffix file deferred w).2
       = log w ++ [CallLstat file; CallOpen file; CallCreate targetFile]
         ++ rest
       ∧ ∀ p, (CallCreate p ∉ rest) ∧ (CallRemove p ∉ rest))
  ∧ (no_sep pkgName = true → Base file ≠ "/" →
     targetFile
     = secbase +:+ "/" +:+ cat +:+ "/" +:+ sub +:+ "/"
       +:+ pkgName +:+ "_" +:+ Base file).
Proof.
  intros Hin Hf1 Hf2 Hl targetDir suffix targetFile.
  assert (HT : target_path targetDir suffix file = targetFile)
    by (by apply policy_target).
  split_and!.
  - done.
  - rewrite <- HT. by apply (visit_Remove_log _ _ _ _ _ c).
  - rewrite <- HT. by apply (visit_Install_log _ _ _ _ _ c).
  - intros Hp Hb. rewrite <- HT. unfold target_path, targetDir, suffix.
    destruct (policy_dir_stack cat sub Hin) as (Hd & Hne & Hr & Hs & Hrd).
    rewrite Join_plain by (done || by apply target_name_plain).
    rewrite render_cons, Hr.
    destruct (stack_of (Join [secbase; cat; sub])) as [|x out] eqn:Hst;
      [done|].
    rewrite Hrd, Hd. by rewrite !append_assoc.
Qed.

(** *** Two packages *)



(** *** The recursion of [MkdirAll] *)

(** The length of the path is fuel enough: with any larger amount the
    result is the same, so the bound is never what stops [MkdirAll]. *)
Lemma MkdirAll_rec_fuel n m path perm w :
  String.length path ≤ n → String.length path ≤ m →
  MkdirAll_rec fault n path perm w = MkdirAll_rec fault m path perm w.
Proof.
  revert m path w. induction n as [|n IH]; intros m path w Hn Hm.
  - destruct m as [|m]; [done|]. simpl.
    unfold mbind, io_bind, get_tree, mret, io_ret.
    destruct (stat (tree w) path) as [e|[c|p|t| | |]]; try done.
    case_decide as Hp; [done|].
    pose proof (mkdir_parent_shorter _ Hp). lia.
  - destruct m as [|m]; simpl;
      unfold mbind, io_bind, get_tree, mret, io_ret;
      destruct (stat (tree w) path) as [e|[c|p|t| | |]]; try done;
      case_decide as Hp; try done;
      pose proof (mkdir_parent_shorter _ Hp) as Hlt; [lia|].
    rewrite (IH m (mkdir_parent path) w) by lia. done.
Qed.

(** *** More on the batch driver *)

Lemma star_is_plain : plain "*".
Proof. by split_and!. Qed.

(** X4.  Every glob of [FrameworkOp] is the pattern [*] directly inside
    [instPath/meta/framework-policy/cat/sub]: whatever the install path,
    the pattern matches entries of that one directory only. *)
Theorem policy_glob_is_one_directory instPath cat sub :
  let glob :=
    Join [Join [instPath; "meta"; "framework-policy"]; cat; sub; "*"] in
  Base glob = "*"
  ∧ dirname glob = Join [instPath; "meta"; "framework-policy"; cat; sub].
Proof.
  intros glob.
  assert (Hg : ∃ d, d ≠ "" ∧ Clean d = d ∧ glob = Join [d; "*"]
                    ∧ d = Join [instPath; "meta"; "framework-policy"; cat; sub]).
  { unfold glob. rewrite policy_glob.
    destruct (decide (instPath = "")) as [->|Hne].
    - exists (Join ["meta"; "framework-policy"; cat; sub]).
      rewrite (Join_cons "meta") by done.
      split_and!; [apply Clean_nonempty|apply Clean_idemp| |done].
      rewrite <- (Join_cons "meta") by done.
      by rewrite (Join_nested "meta" ["framework-policy"; cat; sub] ["*"]).
    - exists (Join [instPath; "meta"; "framework-policy"; cat; sub]).
      rewrite (Join_cons instPath [_; _; _; _]) by done.
      split_and!; [apply Clean_nonempty|apply Clean_idemp| |done].
      rewrite <- (Join_cons instPath [_; _; _; _]) by done.
      by rewrite (Join_nested instPath
                    ["meta"; "framework-policy"; cat; sub] ["*"]). }
  destruct Hg as (d & Hd & Hcl & -> & Heq). split.
  - apply Base_Join, star_is_plain.
  - rewrite dirname_Join by (done || apply star_is_plain). congruence.
Qed.

(** X5.  An operation that is neither [Install] nor [Remove] is turned
    down at the first regular match: the body of the loop returns
    [UnknownOperation], whose text names the number of the operation, and
    it has done nothing but look at the match. *)
Theorem unknown_operation_is_rejected_at_a_match op targetDir suffix file
    deferred w c :
  op ≠ Install → op ≠ Remove →
  fault (CallLstat file) = None →
  lookup_path (tree w) file = inr (Regular c) →
  visit op targetDir suffix file deferred w
  = ((Some (UnknownOperation op), deferred), logged (CallLstat file) w)
  ∧ error_text (UnknownOperation op)
    = "unknown operation policyOp("
      +:+ NilEmpty.string_of_uint (N.to_uint op) +:+ ")".
Proof.
  intros H1 H2 Hf Hl. split.
  - unfold visit, mbind, io_bind. rewrite os_Lstat_run, Hf, Hl. simpl.
    apply N.eqb_neq in H1, H2. by rewrite H1, H2.
  - unfold error_text, policyOp_String.
    apply N.eqb_neq in H1, H2. by rewrite H1, H2.
Qed.

(** *** What the loop may change *)

Lemma Clean_Join l : Join l ≠ "" → Clean (Join l) = Join l.
Proof.
  induction l as [|e es IH]; cbn [Join]; [done|].
  case_decide; [done|]. intros _. apply Clean_idemp.
Qed.

(** The tree [helper] leaves is the one its loop leaves, or the one
    [os.MkdirAll] leaves when the loop is not reached. *)
Lemma helper_tree op glob targetDir suffix w :
  tree (helper op glob targetDir suffix w).2
  = match (os_MkdirAll targetDir 493 w).1,
          glob_matches (tree (os_MkdirAll targetDir 493 w).2) glob with
    | None, Some files =>
        tree (range_files op targetDir suffix files []
                (logged (CallGlob glob) (os_MkdirAll targetDir 493 w).2)).2
    | _, _ => tree (os_MkdirAll targetDir 493 w).2
    end.
Proof.
  unfold helper, mbind, io_bind.
  destruct (os_MkdirAll targetDir 493 w) as [[e|] w1]; [done|].
  unfold filepath_Glob, mbind, io_bind, record, get_tree, mret, io_ret.
  cbn [fst snd tree logged].
  destruct (glob_matches (tree w1) glob) as [files|]; [|done].
  fold (logged (CallGlob glob) w1).
  destruct (range_files op targetDir suffix files [] _) as [[err d] w2].
  by rewrite run_deferred_run.
Qed.

Lemma only_removes_refl keys t : only_removes keys t t.
Proof. intros k. by left. Qed.

Lemma only_removes_step T keys t t' :
  only_removes keys (delete T t) t' → only_removes (T :: keys) t t'.
Proof.
  intros H k. destruct (H k) as [Hk|[Hk Hin]].
  - destruct (decide (k = T)) as [->|Hne].
    + rewrite lookup_delete_eq in Hk. right. split; [done|]. by left.
    + rewrite lookup_delete_ne in Hk by done. by left.
  - right. split; [done|]. by right.
Qed.

Lemma only_removes_more T keys t t' :
  only_removes keys t t' → only_removes (T :: keys) t t'.
Proof.
  intros H k. destruct (H k) as [Hk|[Hk Hin]]; [by left|].
  right. split; [done|]. by right.
Qed.

(** One round of the loop for [Remove] leaves the tree as it is or takes
    the target out of it. *)
Lemma visit_Remove_tree targetDir suffix file deferred w :
  tree (visit Remove targetDir suffix file deferred w).2 = tree w
  ∨ tree (visit Remove targetDir suffix file deferred w).2
    = delete (target_path targetDir suffix file) (tree w).
Proof.
  unfold visit, mbind, io_bind. rewrite os_Lstat_run.
  destruct (fault (CallLstat file)) as [e0|]; [by left|].
  destruct (lookup_path _ _) as [e1|n1]; [by left|].
  destruct (negb _); [by left|]. simpl.
  rewrite os_Remove_run. simpl.
  destruct (fault (CallRemove _)) as [e2|]; [by left|].
  destruct (lookup_path _ _) as [e3|n3] eqn:Hl; [by left|].
  apply lookup_path_Some in Hl as [Hne _].
  destruct (match n3 with Directory _ => _ | _ => true end); [|by left].
  right. simpl. unfold target_path in *. by rewrite Clean_Join.
Qed.

Lemma range_files_Remove_tree targetDir suffix files deferred w :
  only_removes (map (target_path targetDir suffix) files) (tree w)
    (tree (range_files Remove targetDir suffix files deferred w).2).
Proof.
  revert deferred w. induction files as [|f files IH]; intros deferred w.
  { apply only_removes_refl. }
  cbn [range_files map]. unfold mbind, io_bind.
  destruct (visit_Remove_tree targetDir suffix f deferred w) as [Hv|Hv];
    destruct (visit Remove targetDir suffix f deferred w)
      as [[[e|] d] w1]; cbn [snd mret io_ret] in *.
  - rewrite Hv. apply only_removes_refl.
  - rewrite <- Hv. apply only_removes_more, IH.
  - apply only_removes_step. rewrite <- Hv. apply only_removes_refl.
  - apply only_removes_step. rewrite <- Hv. apply IH.
Qed.


Lemma only_writes_files_refl t : only_writes_files t t.
Proof. intros k. by left. Qed.

Lemma only_writes_files_trans t1 t2 t3 :
  only_writes_files t1 t2 → only_writes_files t2 t3 →
  only_writes_files t1 t3.
Proof.
  intros H12 H23 k.
  destruct (H23 k) as [H|(c & Hc & H)].
  - rewrite H. apply H12.
  - right. exists c. split; [done|].
    destruct (H12 k) as [H'|(c' & Hc' & H')].
    + by rewrite <- H'.
    + done.
Qed.

Lemma only_writes_files_insert (t : gmap string node) key c :
  t !! key = None ∨ (∃ old, t !! key = Some (Regular old)) →
  only_writes_files t (<[key := Regular c]> t).
Proof.
  intros H k. destruct (decide (k = key)) as [->|Hne].
  - right. exists c. by rewrite lookup_insert_eq.
  - left. by rewrite lookup_insert_ne.
Qed.

Lemma os_Create_writes name w :
  only_writes_files (tree w) (tree (os_Create fault name w).2).
Proof.
  unfold os_Create, mbind, io_bind, record, get_tree, put_tree, mret, io_ret.
  cbn [tree log logged].
  destruct (fault _) as [e|]; [apply only_writes_files_refl|].
  case_decide; [apply only_writes_files_refl|].
  destruct (realpath _ _ _) as [e|key]; [apply only_writes_files_refl|].
  destruct (tree w !! key) as [[c|p|t| | |]|] eqn:Hk;
    try apply only_writes_files_refl.
  - apply only_writes_files_insert. eauto.
  - destruct (stat _ _) as [e|[c|p|t| | |]];
      try apply only_writes_files_refl.
    apply only_writes_files_insert. eauto.
Qed.

Lemma io_Copy_writes dst src w :
  only_writes_files (tree w) (tree (io_Copy fault short_write dst src w).2).
Proof.
  unfold io_Copy, write_file, mbind, io_bind, record, get_tree, put_tree,
    mret, io_ret. cbn [tree log logged].
  destruct (fault _) as [e|]; cbn [tree log logged];
    destruct (tree w !! dst) as [[c|p|t| | |]|] eqn:Hd;
    try apply only_writes_files_refl;
    apply only_writes_files_insert; eauto.
Qed.

Lemma os_Open_tree name w : tree (os_Open fault name w).2 = tree w.
Proof.
  unfold os_Open, mbind, io_bind, record, get_tree, mret, io_ret.
  cbn [tree log logged].
  destruct (fault _) as [e|]; [done|]. case_decide; [done|].
  destruct (realpath _ _ _) as [e|key]; [done|].
  by destruct (tree w !! key).
Qed.

Lemma visit_Install_writes targetDir suffix file deferred w :
  only_writes_files (tree w)
    (tree (visit Install targetDir suffix file deferred w).2).
Proof.
  unfold visit, mbind, io_bind. rewrite os_Lstat_run.
  set (w0 := logged (CallLstat file) w).
  change (tree w) with (tree w0).
  destruct (match fault (CallLstat file) with Some _ => _ | None => _ end)
    as [e0|mode]; [apply only_writes_files_refl|].
  destruct (negb _); [apply only_writes_files_refl|].
  change (N.eqb Install Remove) with false.
  change (N.eqb Install Install) with true. cbv beta iota zeta.
  pose proof (os_Open_tree file w0) as Ho.
  destruct (os_Open fault file w0) as [[e|fin] w1]; cbn [snd] in Ho;
    rewrite <- Ho; [apply only_writes_files_refl|].
  cbv beta iota zeta.
  pose proof (os_Create_writes (target_path targetDir suffix file) w1) as Hc.
  destruct (os_Create fault _ w1) as [[e|fout] w2]; cbn [snd] in Hc; [done|].
  cbv beta iota zeta.
  pose proof (io_Copy_writes fout fin w2) as Hcp.
  destruct (io_Copy fault short_write fout fin w2) as [[e|] w3];
    cbn [snd] in Hcp.
  - by eapply only_writes_files_trans.
  - unfold File_Sync, mbind, io_bind, record, mret, io_ret.
    destruct (fault (CallSync fout)); cbn [snd tree logged];
      by eapply only_writes_files_trans.
Qed.

Lemma range_files_Install_writes targetDir suffix files deferred w :
  only_writes_files (tree w)
    (tree (range_files Install targetDir suffix files deferred w).2).
Proof.
  revert deferred w. induction files as [|f files IH]; intros deferred w.
  { apply only_writes_files_refl. }
  cbn [range_files]. unfold mbind, io_bind.
  pose proof (visit_Install_writes targetDir suffix f deferred w) as Hv.
  destruct (visit Install targetDir suffix f deferred w) as [[[e|] d] w1];
    cbn [snd mret io_ret] in *; [done|].
  eapply only_writes_files_trans; [done|apply IH].
Qed.

(** X8.  Whatever fails, [helper] for [Install] removes no entry of what
    [os.MkdirAll] has left and alters nothing that is not a regular file:
    directories, links and devices stay as they are, and what it adds or
    changes is a regular file. *)
Theorem Install_only_writes_files glob targetDir suffix w :
  only_writes_files (tree (os_MkdirAll targetDir 493 w).2)
    (tree (helper Install glob targetDir suffix w).2).
Proof.
  rewrite helper_tree.
  destruct (os_MkdirAll targetDir 493 w).1; [apply only_writes_files_refl|].
  destruct (glob_matches _ glob) as [files|];
    [|apply only_writes_files_refl].
  apply (range_files_Install_writes _ _ _ _
           (logged (CallGlob glob) (os_MkdirAll targetDir 493 w).2)).
Qed.

(** *** When files are closed *)



Lemma File_Sync_log file w :
  log (File_Sync fault file w).2 = log w ++ [CallSync file].
Proof. done. Qed.





(** *** What [Install] writes *)


(** Copying to a regular file, whether the copy fails or not. *)
Lemma io_Copy_run dst src w old :
  tree w !! dst = Some (Regular old) →
  io_Copy fault short_write dst src w
  = let data := match tree w !! src with Some (Regular c) => c | _ => "" end in
    match fault (CallCopy dst src) with
    | Some e =>
        (Some (PathErr "write" dst e),
         World (<[dst := Regular (String.substring 0 (short_write dst) data)]>
                  (tree w))
           (log w ++ [CallCopy dst src]))
    | None =>
        (None, World (<[dst := Regular data]> (tree w))
                 (log w ++ [CallCopy dst src]))
    end.
Proof.
  intros Hd.
  unfold io_Copy, write_file, mbind, io_bind, record, get_tree, put_tree,
    mret, io_ret. cbn [tree log logged].
  destruct (fault _) as [e|]; cbn [tree log logged]; by rewrite Hd.
Qed.

(** The round of [Install] once the match is found regular and opened. *)
Lemma visit_Install_opened targetDir suffix file deferred w c :
  fault (CallLstat file) = None →
  fault (CallOpen file) = None →
  lookup_path (tree w) file = inr (Regular c) →
  visit Install targetDir suffix file deferred w
  = let targetFile := target_path targetDir suffix file in
    (fout ← os_Create fault targetFile;
     match fout with
     | inl err =>
         mret (Some (TargetCreateError targetFile err), Clean file :: deferred)
     | inr fout =>
         err ← io_Copy fault short_write fout (Clean file);
         match err with
         | Some err =>
             mret (Some (CopyError file targetFile err),
                   fout :: Clean file :: deferred)
         | None =>
             err ← File_Sync fault fout;
             match err with
             | Some err =>
                 mret (Some (SyncError targetFile err),
                       fout :: Clean file :: deferred)
             | None => mret (None, fout :: Clean file :: deferred)
             end
         end
     end) (logged (CallOpen file) (logged (CallLstat file) w)).
Proof.
  intros Hf1 Hf2 Hl. unfold visit, mbind, io_bind.
  rewrite os_Lstat_run, Hf1, Hl. simpl.
  by rewrite (os_Open_regular file _ c).
Qed.





(** X12.  The target is truncated before the match is read.  When the
    path of the target leads to the match itself, because it is the same
    path or a link to it, [Install] reports no error and leaves the file
    empty. *)
Theorem Install_onto_itself_empties_the_file targetDir suffix file deferred
    w c :
  (∀ c, fault c = None) →
  lookup_path (tree w) file = inr (Regular c) →
  target_path targetDir suffix file ≠ "" →
  realpath max_links (tree w) (target_path targetDir suffix file)
  = inr (Clean file) →
  (visit Install targetDir suffix file deferred w).1.1 = None
  ∧ tree (visit Install targetDir suffix file deferred w).2
    = <[Clean file := Regular ""]> (tree w).
Proof.
  intros Hnf Hl HTne Hrp.
  destruct (lookup_path_Some _ _ _ Hl) as [Hfne Hfk].
  rewrite (visit_Install_opened _ _ _ _ _ c) by done. cbv zeta.
  set (T := target_path targetDir suffix file) in *.
  assert (HTcl : Clean T = T) by (by apply Clean_Join).
  unfold mbind, io_bind.
  assert (Hc : os_Create fault T
                 (logged (CallOpen file) (logged (CallLstat file) w))
               = (inr (Clean file),
                  World (<[Clean file := Regular ""]> (tree w))
                    (log w ++ [CallLstat file; CallOpen file; CallCreate T]))).
  { unfold os_Create, mbind, io_bind, record, get_tree, put_tree, mret,
      io_ret. cbn [tree log logged].
    rewrite Hnf, decide_False, HTcl, Hrp, Hfk by done.
    cbn [tree log logged]. by rewrite <- !app_assoc. }
  rewrite Hc. cbv beta iota zeta.
  rewrite (io_Copy_run _ _ _ "") by (cbn [tree]; by rewrite lookup_insert_eq).
  cbv zeta. cbn [tree log]. rewrite Hnf, lookup_insert_eq.
  unfold File_Sync, mbind, io_bind, record, mret, io_ret, logged.
  rewrite Hnf. cbn [fst snd tree]. by rewrite insert_insert_eq.
Qed.

(** *** Errors before the loop *)

(** X13.  When the target directory cannot be made, or the pattern is
    malformed, [helper] returns that error without looking at any match:
    its only calls are [os.MkdirAll] and, when that succeeds,
    [filepath.Glob], and the tree has at most gained directories. *)
Theorem early_errors_touch_no_file op glob targetDir suffix w :
  let made := os_MkdirAll targetDir 493 w in
  let r := helper op glob targetDir suffix w in
  made.1 ≠ None ∨ glob_matches (tree made.2) glob = None →
  r.1 = Some (match made.1 with
              | Some e => DirectoryCreateError targetDir e
              | None => GlobError glob
              end)
  ∧ log r.2 = log w ++ CallMkdirAll targetDir
                :: match made.1 with Some _ => [] | None => [CallGlob glob] end
  ∧ ∀ k, tree r.2 !! k = tree w !! k
         ∨ (tree w !! k = None ∧ tree r.2 !! k = Some (Directory 493)).
Proof.
  intros made r H.
  destruct (os_MkdirAll_adds targetDir 493 w) as [Hlog Htree].
  fold made in Hlog, Htree. cbn [log tree logged] in Hlog, Htree.
  unfold r, helper, mbind, io_bind. fold made.
  destruct made as [[e|] w1]; cbn [fst snd mret io_ret] in *.
  { split_and!; [done|by rewrite Hlog|done]. }
  destruct H as [H|H]; [done|].
  unfold filepath_Glob, mbind, io_bind, record, get_tree, mret, io_ret.
  cbn [fst snd tree log logged]. rewrite H. cbn [fst snd tree log].
  split_and!; [done| |done].
  unfold logged. cbn [log]. by rewrite Hlog, <- app_assoc.
Qed.

(** *** The target directory after [Install] *)

Lemma realpath_only_writes fuel (t t' : gmap string node) key key' perm :
  only_writes_files t t' →
  realpath fuel t key = inr key' → t !! key' = Some (Directory perm) →
  realpath fuel t' key = inr key'.
Proof.
  intros Hw. revert key. induction fuel as [|fuel IH]; intros key Hr Hk.
  - cbn [realpath] in *.
    destruct (Hw key) as [Heq|(c & Hc & [Hn|[old Ho]])].
    + rewrite Heq. by destruct (t !! key) as [[| |target| | |]|].
    + rewrite Hn in Hr. injection Hr as <-. congruence.
    + rewrite Ho in Hr. injection Hr as <-. congruence.
  - cbn [realpath] in *.
    destruct (Hw key) as [Heq|(c & Hc & [Hn|[old Ho]])].
    + rewrite Heq. destruct (t !! key) as [[| |target| | |]|]; try done.
      case_decide; [done|]. by apply IH.
    + rewrite Hn in Hr. injection Hr as <-. congruence.
    + rewrite Ho in Hr. injection Hr as <-. congruence.
Qed.

Lemma is_dir_only_writes (t t' : gmap string node) path :
  only_writes_files t t' → is_dir t path = true → is_dir t' path = true.
Proof.
  intros Hw. unfold is_dir, stat. case_decide; [done|].
  destruct (realpath max_links t (Clean path)) as [e|key] eqn:Hr; [done|].
  destruct (t !! key) as [[c|perm|target| | |]|] eqn:Hk; try done.
  intros _. rewrite (realpath_only_writes _ _ _ _ _ _ Hw Hr Hk).
  destruct (Hw key) as [Heq|(c & Hc & [Hn|[old Ho]])]; [|congruence..].
  by rewrite Heq, Hk.
Qed.

(** X14.  Once [os.MkdirAll] has made the target directory, [helper] for
    [Install] leaves it a directory whatever fails afterwards. *)
Theorem Install_leaves_the_target_directory glob targetDir suffix w :
  (os_MkdirAll targetDir 493 w).1 = None →
  is_dir (tree (helper Install glob targetDir suffix w).2) targetDir = true.
Proof.
  intros Hm.
  destruct (os_MkdirAll targetDir 493 w) as [r w1] eqn:Hmk.
  cbn [fst] in Hm. subst r.
  pose proof (os_MkdirAll_makes _ _ _ _ Hmk) as Hdir.
  rewrite helper_tree, Hmk. cbn [fst snd].
  destruct (glob_matches (tree w1) glob) as [files|]; [|done].
  eapply is_dir_only_writes; [|exact Hdir].
  apply (range_files_Install_writes _ _ _ _ (logged (CallGlob glob) w1)).
Qed.

(** *** What [FrameworkOp] may change *)

(** A relation between trees that holds from the tree before to the tree
    after every run of [helper] holds from before to after [FrameworkOp],
    when it is reflexive and transitive. *)
Lemma FrameworkOp_tree (R : gmap string node → gmap string node → Prop)
    op pkgName instPath w :
  (∀ t, R t t) →
  (∀ t1 t2 t3, R t1 t2 → R t2 t3 → R t1 t3) →
  (∀ glob targetDir suffix w,
     R (tree w) (tree (helper op glob targetDir suffix w).2)) →
  R (tree w)
    (tree (FrameworkOp fault short_write glob_matches op pkgName instPath w).2).
Proof.
  intros Hrefl Htrans Hh.
  assert (Hj : ∀ (body : string → io (option error)) items w,
            (∀ j w, R (tree w) (tree (body j w).2)) →
            R (tree w) (tree (for_each items body w).2)).
  { intros body items. induction items as [|x items IH]; intros w0 Hb.
    - apply Hrefl.
    - cbn [for_each]. unfold mbind, io_bind.
      pose proof (Hb x w0) as Hx.
      destruct (body x w0) as [[e|] w1]; cbn [snd mret io_ret] in *;
        [done|].
      eapply Htrans; [exact Hx|]. by apply IH. }
  unfold FrameworkOp. cbv zeta.
  apply Hj. intros i w1. apply Hj. intros j w2. apply Hh.
Qed.

Lemma only_grows_refl perm t : only_grows perm t t.
Proof. intros k. by left. Qed.

Lemma only_grows_trans perm t1 t2 t3 :
  only_grows perm t1 t2 → only_grows perm t2 t3 → only_grows perm t1 t3.
Proof.
  intros H12 H23 k.
  destruct (H23 k) as [H|[[Hn Hd]|(c & Hc & H)]].
  - rewrite H. apply H12.
  - destruct (H12 k) as [H'|[[Hn' Hd']|(c' & Hc' & H')]].
    + right. left. by rewrite <- H'.
    + congruence.
    + congruence.
  - right. right. exists c. split; [done|].
    destruct (H12 k) as [H'|[[Hn' Hd']|(c' & Hc' & H')]].
    + by rewrite <- H'.
    + destruct H as [H|[old H]]; congruence.
    + done.
Qed.

Lemma helper_Install_grows glob targetDir suffix w :
  only_grows 493 (tree w) (tree (helper Install glob targetDir suffix w).2).
Proof.
  apply (only_grows_trans _ _ (tree (os_MkdirAll targetDir 493 w).2)).
  - destruct (os_MkdirAll_adds targetDir 493 w) as [_ Ht].
    intros k. destruct (Ht k) as [H|H]; [by left|by right; left].
  - rewrite helper_tree.
    destruct (os_MkdirAll targetDir 493 w).1; [apply only_grows_refl|].
    destruct (glob_matches _ glob) as [files|]; [|apply only_grows_refl].
    intros k.
    destruct (range_files_Install_writes targetDir suffix files []
                (logged (CallGlob glob) (os_MkdirAll targetDir 493 w).2) k)
      as [H|H]; [by left|by right; right].
Qed.

(** X15.  Whatever the package, the install path, the tree and the calls
    that fail, [FrameworkOp] for [Install] removes no entry and changes no
    directory, link or device: all it does to the tree is to make
    directories where nothing was and to write regular files. *)
Theorem FrameworkOp_Install_only_grows pkgName instPath w :
  only_grows 493 (tree w)
    (tree (FrameworkOp fault short_write glob_matches Install pkgName
             instPath w).2).
Proof.
  apply (FrameworkOp_tree (only_grows 493)).
  - apply only_grows_refl.
  - apply only_grows_trans.
  - apply helper_Install_grows.
Qed.

Lemma writes_no_file_trans perm t1 t2 t3 :
  writes_no_file perm t1 t2 → writes_no_file perm t2 t3 →
  writes_no_file perm t1 t3.
Proof.
  intros H12 H23 k n H3.
  destruct (H23 k n H3) as [H2| ->]; [by apply H12|by right].
Qed.

Lemma helper_Remove_writes_no_file glob targetDir suffix w :
  writes_no_file 493 (tree w)
    (tree (helper Remove glob targetDir suffix w).2).
Proof.
  apply (writes_no_file_trans _ _ (tree (os_MkdirAll targetDir 493 w).2)).
  - destruct (os_MkdirAll_adds targetDir 493 w) as [_ Ht].
    cbn [tree logged] in Ht.
    intros k n Hk. destruct (Ht k) as [H|[_ H]].
    + left. by rewrite <- H.
    + right. congruence.
  - rewrite helper_tree.
    destruct (os_MkdirAll targetDir 493 w).1; [by left|].
    destruct (glob_matches _ glob) as [files|]; [|by left].
    intros k n Hk.
    destruct (range_files_Remove_tree targetDir suffix files []
                (logged (CallGlob glob) (os_MkdirAll targetDir 493 w).2) k)
      as [H|[H _]]; [|congruence].
    cbn [tree logged] in H. left. by rewrite <- H.
Qed.

(** X16.  Whatever the package, the install path, the tree and the calls
    that fail, [FrameworkOp] for [Remove] writes no file: every entry of
    the tree it leaves was there before, unchanged, or is a directory that
    [os.MkdirAll] has made. *)
Theorem FrameworkOp_Remove_writes_no_file pkgName instPath w :
  writes_no_file 493 (tree w)
    (tree (FrameworkOp fault short_write glob_matches Remove pkgName
             instPath w).2).
Proof.
  apply (FrameworkOp_tree (writes_no_file 493)).
  - intros t k n H. by left.
  - apply writes_no_file_trans.
  - apply helper_Remove_writes_no_file.
Qed.

(** *** Removing and installing again *)

(** X17.  [Remove] looks at the match, not at the target: whatever is at
    the path of the target, a regular file, a link, a device or an empty
    directory, is removed. *)
Theorem Remove_takes_whatever_is_at_the_target targetDir suffix file
    deferred w c n :
  fault (CallLstat file) = None →
  fault (CallRemove (target_path targetDir suffix file)) = None →
  lookup_path (tree w) file = inr (Regular c) →
  lookup_path (tree w) (target_path targetDir suffix file) = inr n →
  (∀ perm, n = Directory perm →
           empty_dir (tree w) (target_path targetDir suffix file) = true) →
  visit Remove targetDir suffix file deferred w
  = ((None, deferred),
     World (delete (target_path targetDir suffix file) (tree w))
       (log w ++ [CallLstat file;
                  CallRemove (target_path targetDir suffix file)])).
Proof.
  intros Hf1 Hf2 Hl Ht He.
  destruct (lookup_path_Some _ _ _ Ht) as [HTne _].
  assert (HTcl : Clean (target_path targetDir suffix file)
                 = target_path targetDir suffix file)
    by (by apply Clean_Join).
  rewrite (visit_Remove_regular _ _ _ _ _ c) by done. cbv zeta.
  rewrite os_Remove_run, Hf2. cbn [tree log logged]. rewrite Ht, HTcl.
  destruct n as [c'|perm|target| | |]; rewrite <- ?app_assoc; try done.
  by rewrite (He perm).
Qed.








End run.

(** ** Errors of [Close] *)

Section close.
Context (f f' : call → option errno) (sw : string → nat)
  (g : gmap string node → string → option (list string)).
Hypothesis Hagree : agree_but_close f f'.

Local Ltac same_fault c :=
  let H := fresh in
  assert (H : f c = f' c) by (apply Hagree; intros ?; discriminate);
  rewrite H; clear H.

Lemma os_Lstat_agree name w : os_Lstat f name w = os_Lstat f' name w.
Proof using Hagree. unfold os_Lstat. by same_fault (CallLstat name). Qed.

Lemma os_Mkdir_agree name perm w :
  os_Mkdir f name perm w = os_Mkdir f' name perm w.
Proof using Hagree. unfold os_Mkdir. by same_fault (CallMkdir name). Qed.

Lemma MkdirAll_rec_agree fuel path perm w :
  MkdirAll_rec f fuel path perm w = MkdirAll_rec f' fuel path perm w.
Proof using Hagree.
  revert path w. induction fuel as [|fuel IH]; intros path w; simpl;
    unfold mbind, io_bind, get_tree, mret, io_ret;
    destruct (stat (tree w) path) as [e|[c|p|t| | |]]; try done;
    case_decide; try rewrite IH; try done.
  - by rewrite os_Mkdir_agree.
  - by rewrite os_Mkdir_agree.
  - destruct (MkdirAll_rec f' fuel (mkdir_parent path) perm w)
      as [[e1|] w1]; [done|]. by rewrite os_Mkdir_agree.
Qed.

Lemma os_MkdirAll_agree path perm w :
  os_MkdirAll f path perm w = os_MkdirAll f' path perm w.
Proof using Hagree. unfold os_MkdirAll, mbind, io_bind. apply MkdirAll_rec_agree. Qed.

Lemma os_Remove_agree name w : os_Remove f name w = os_Remove f' name w.
Proof using Hagree. unfold os_Remove. by same_fault (CallRemove name). Qed.

Lemma os_Open_agree name w : os_Open f name w = os_Open f' name w.
Proof using Hagree. unfold os_Open. by same_fault (CallOpen name). Qed.

Lemma os_Create_agree name w : os_Create f name w = os_Create f' name w.
Proof using Hagree. unfold os_Create. by same_fault (CallCreate name). Qed.

Lemma io_Copy_agree dst src w :
  io_Copy f sw dst src w = io_Copy f' sw dst src w.
Proof using Hagree. unfold io_Copy. by same_fault (CallCopy dst src). Qed.

Lemma File_Sync_agree file w : File_Sync f file w = File_Sync f' file w.
Proof using Hagree. unfold File_Sync. by same_fault (CallSync file). Qed.

Lemma visit_agree op targetDir suffix file deferred w :
  visit f sw op targetDir suffix file deferred w
  = visit f' sw op targetDir suffix file deferred w.
Proof using Hagree.
  unfold visit, mbind, io_bind. rewrite os_Lstat_agree.
  destruct (os_Lstat f' file w) as [[e|mode] w1]; [done|].
  destruct (negb (IsRegular mode)); [done|].
  destruct (N.eqb op Remove); [by rewrite os_Remove_agree|].
  destruct (N.eqb op Install); [|done].
  rewrite os_Open_agree. destruct (os_Open f' file w1) as [[e|fin] w2]; [done|].
  rewrite os_Create_agree.
  destruct (os_Create f' _ w2) as [[e|fout] w3]; [done|].
  rewrite io_Copy_agree.
  destruct (io_Copy f' sw fout fin w3) as [[e|] w4]; [done|].
  by rewrite File_Sync_agree.
Qed.

Lemma range_files_agree op targetDir suffix files deferred w :
  range_files f sw op targetDir suffix files deferred w
  = range_files f' sw op targetDir suffix files deferred w.
Proof using Hagree.
  revert deferred w. induction files as [|file files IH];
    intros deferred w; [done|].
  simpl. unfold mbind, io_bind. rewrite visit_agree.
  by destruct (visit f' sw op targetDir suffix file deferred w)
    as [[[e|] d] w1].
Qed.

Lemma helper_agree op glob targetDir suffix w :
  helper f sw g op glob targetDir suffix w
  = helper f' sw g op glob targetDir suffix w.
Proof using Hagree.
  unfold helper, mbind, io_bind. rewrite os_MkdirAll_agree.
  destruct (os_MkdirAll f' targetDir 493 w) as [[e|] w1]; [done|].
  destruct (filepath_Glob g glob w1) as [[files|] w2]; [|done].
  rewrite range_files_agree.
  destruct (range_files f' sw op targetDir suffix files [] w2)
    as [[err d] w3].
  by rewrite !run_deferred_run.
Qed.

(** X6.  What a [Close] returns reaches no caller: two environments that
    differ only in whether closing a file fails give the same result, the
    same tree and the same calls, for [helper] and for [FrameworkOp]. *)
Theorem close_errors_are_dropped op pkgName instPath glob targetDir suffix w :
  helper f sw g op glob targetDir suffix w
  = helper f' sw g op glob targetDir suffix w
  ∧ FrameworkOp f sw g op pkgName instPath w
    = FrameworkOp f' sw g op pkgName instPath w.
Proof using Hagree.
  split; [apply helper_agree|].
  unfold FrameworkOp. cbn [for_each]. unfold mbind, io_bind.
  rewrite helper_agree. destruct (helper f' sw g op _ _ _ w) as [[e1|] w1];
    [done|].
  rewrite helper_agree. destruct (helper f' sw g op _ _ _ w1) as [[e2|] w2];
    [done|].
  cbn [mret io_ret].
  rewrite helper_agree. destruct (helper f' sw g op _ _ _ w2) as [[e3|] w3];
    [done|].
  by rewrite helper_agree.
Qed.

End close.

(** ** The theorems at work *)

Lemma irregular_match_is_rejected_witness :
  (run_helper Install "/src/*" "/dst" "p_" world_src).1
  = Some (NotRegularFile Install "/src/b_dir")
  ∧ error_text (NotRegularFile Install "/src/b_dir")
    = "unable to do Install for /src/b_dir: not a regular file".
Proof.
  split; [|reflexivity].
  assert (Harr : arrives_at no_fault no_short_write dir_glob Install "/src/*"
            "/dst" "p_" ["/src/a_net"] "/src/b_dir" ["/src/c_lnk"] world_src
            src_first_installed.1.2 src_first_installed.2).
  { exists src_made. split_and!; vm_compute; reflexivity. }
  unfold run_helper.
  rewrite (proj1 (irregular_match_is_rejected no_fault no_short_write dir_glob
             Install "/src/*" "/dst" "p_" ["/src/a_net"] "/src/b_dir"
             ["/src/c_lnk"] world_src _ _ Harr) (Directory 493)).
  - reflexivity.
  - reflexivity.
  - vm_compute. reflexivity.
  - intros c. discriminate.
Defined.

(** A link is turned down even when it points to a regular file. *)
Example link_to_regular_file_is_rejected :
  (run_helper Install "/src/c_lnk" "/dst" "p_" world_src).1
  = Some (NotRegularFile Install "/src/c_lnk").
Proof. vm_compute. reflexivity. Qed.

Lemma remove_of_missing_target_fails_witness :
  ∃ cause,
    (run_helper Remove "/src/*" "/dst" "p_" world_src).1
    = Some (RemoveError "/dst/p_a_net" cause)
    ∧ Path cause = "/dst/p_a_net" ∧ Err cause = ENOENT.
Proof.
  assert (Harr : arrives_at no_fault no_short_write dir_glob Remove "/src/*"
            "/dst" "p_" [] "/src/a_net" ["/src/b_dir"; "/src/c_lnk"] world_src
            [] (logged (CallGlob "/src/*") src_made)).
  { exists src_made. split_and!; vm_compute; reflexivity. }
  destruct (proj1 (remove_of_missing_target_fails no_fault no_short_write
              dir_glob "/src/*" "/dst" "p_" "/src/a_net")
              [] ["/src/b_dir"; "/src/c_lnk"] world_src [] _ "allow net" Harr)
    as (cause & Hrun & _ & Hpath & Herr).
  - reflexivity.
  - vm_compute. reflexivity.
  - vm_compute. reflexivity.
  - exists cause. unfold run_helper. rewrite Hrun. split_and!.
    + reflexivity.
    + exact Hpath.
    + by apply Herr.
Defined.

Lemma first_error_ends_the_loop_witness :
  run_helper Install "/src/*" "/dst" "p_" world_src
  = (Some (NotRegularFile Install "/src/b_dir"),
     World (tree src_first_installed.2)
       (log src_first_installed.2
        ++ [CallLstat "/src/b_dir"; CallClose "/dst/p_a_net";
            CallClose "/src/a_net"])).
Proof.
  assert (Harr : arrives_at no_fault no_short_write dir_glob Install "/src/*"
            "/dst" "p_" ["/src/a_net"] "/src/b_dir" ["/src/c_lnk"] world_src
            src_first_installed.1.2 src_first_installed.2).
  { exists src_made. split_and!; vm_compute; reflexivity. }
  unfold run_helper.
  rewrite (proj1 (first_error_ends_the_loop no_fault no_short_write dir_glob
             Install "/src/*" "/dst" "p_" ["/src/a_net"] "/src/b_dir"
             ["/src/c_lnk"] world_src _ _
             (NotRegularFile Install "/src/b_dir")
             src_first_installed.1.2
             (logged (CallLstat "/src/b_dir") src_first_installed.2)
             Harr ltac:(vm_compute; reflexivity))).
  vm_compute. reflexivity.
Defined.





Lemma install_and_remove_share_the_target_witness :
  target_path (Join [secbase; "apparmor"; "policygroups"]) ("pkg" +:+ "_")
    pkg_net
  = "/var/lib/snappy/apparmor/policygroups/pkg_net"
  ∧ log (visit no_fault no_short_write Remove
           (Join [secbase; "apparmor"; "policygroups"]) ("pkg" +:+ "_")
           pkg_net [] world_pkg).2
    = [CallLstat pkg_net;
       CallRemove "/var/lib/snappy/apparmor/policygroups/pkg_net"].
Proof.
  destruct (install_and_remove_share_the_target no_fault no_short_write
              "pkg" "apparmor" "policygroups" pkg_net [] world_pkg
              "allow net")
    as (HT & HR & _ & Hlit).
  - unfold combinations. apply elem_of_cons. by left.
  - reflexivity.
  - reflexivity.
  - vm_compute. reflexivity.
  - rewrite HT, HR, Hlit.
    + split; vm_compute; reflexivity.
    + reflexivity.
    + vm_compute. discriminate.
Defined.



(** C1 fails on the code.  An operation that is neither [Install] nor
    [Remove] goes unnoticed when no glob matches anything: [FrameworkOp]
    returns no error, and it has made the four target directories.  When
    there is a match the operation is turned down, but only after the
    first target directory has been made. *)
Theorem unknown_operation_goes_unnoticed :
  let quiet := run_FrameworkOp 2%N "pkg" "/snap/pkg" world_fresh in
  let loud := run_FrameworkOp 2%N "pkg" "/snap/pkg" world_pkg in
  quiet.1 = None
  ∧ tree world_fresh !! "/var/lib/snappy/seccomp/templates" = None
  ∧ tree quiet.2 !! "/var/lib/snappy/seccomp/templates"
    = Some (Directory 493)
  ∧ loud.1 = Some (UnknownOperation 2%N)
  ∧ error_text (UnknownOperation 2%N) = "unknown operation policyOp(2)"
  ∧ tree world_pkg !! "/var/lib/snappy/apparmor/policygroups" = None
  ∧ tree loud.2 !! "/var/lib/snappy/apparmor/policygroups"
    = Some (Directory 493).
Proof. split_and!; vm_compute; reflexivity. Qed.

(** C10.  The target name is not injective in the package and the base
    name: package [a_b] with source [c] and package [a] with source [b_c]
    have the same target in every target directory, wherever the sources
    lie.  So the two packages address one installed file. *)
Theorem target_name_is_not_injective :
  ("a_b", "c") ≠ ("a", "b_c")
  ∧ ∀ targetDir dirA dirB,
      target_path targetDir ("a_b" +:+ "_") (dirA +:+ "/" +:+ "c")
      = target_path targetDir ("a" +:+ "_") (dirB +:+ "/" +:+ "b_c").
Proof.
  split; [discriminate|]. intros targetDir dirA dirB. unfold target_path.
  by rewrite !Base_in_dir.
Qed.

Lemma close_errors_are_dropped_witness :
  (helper close_fails no_short_write dir_glob Install "/src/*" "/dst" "p_"
     world_two).1 = None
  ∧ CallClose "/dst/p_net"
    ∈ log (helper close_fails no_short_write dir_glob Install "/src/*" "/dst"
             "p_" world_two).2.
Proof.
  destruct (close_errors_are_dropped no_fault close_fails no_short_write
              dir_glob) with (op := Install) (pkgName := "") (instPath := "")
              (glob := "/src/*") (targetDir := "/dst") (suffix := "p_")
              (w := world_two) as [H _].
  - intros c Hc. destruct c; try reflexivity. by destruct (Hc file).
  - rewrite <- H. split; [vm_compute; reflexivity|].
    vm_compute. repeat first [apply list_elem_of_here | apply list_elem_of_further].
Defined.

Lemma unknown_operation_is_rejected_at_a_match_witness :
  visit no_fault no_short_write 2%N "/dst" "p_" "/src/a_net" [] world_src
  = ((Some (UnknownOperation 2%N), []),
     logged (CallLstat "/src/a_net") world_src)
  ∧ error_text (UnknownOperation 2%N) = "unknown operation policyOp(2)".
Proof.
  apply (unknown_operation_is_rejected_at_a_match no_fault no_short_write
           2%N "/dst" "p_" "/src/a_net" [] world_src "allow net").
  - discriminate.
  - discriminate.
  - reflexivity.
  - vm_compute. reflexivity.
Defined.




Lemma Install_onto_itself_empties_the_file_witness :
  tree world_link !! "/src/net" = Some (Regular "allow net")
  ∧ (visit no_fault no_short_write Install "/dst" "p_" "/src/net" []
       world_link).1.1 = None
  ∧ tree (visit no_fault no_short_write Install "/dst" "p_" "/src/net" []
            world_link).2 !! "/src/net"
    = Some (Regular "").
Proof.
  split; [vm_compute; reflexivity|].
  destruct (Install_onto_itself_empties_the_file no_fault no_short_write
              "/dst" "p_" "/src/net" [] world_link "allow net") as [Hr Ht].
  - intros c. reflexivity.
  - vm_compute. reflexivity.
  - intros H. vm_compute in H. discriminate H.
  - vm_compute. reflexivity.
  - split; [exact Hr|]. rewrite Ht. vm_compute. reflexivity.
Defined.

Lemma early_errors_touch_no_file_witness :
  (run_helper Install "/src/*" "/dst/p_net" "p_" world_old).1
  = Some (DirectoryCreateError "/dst/p_net"
            (PathErr "mkdir" "/dst/p_net" ENOTDIR))
  ∧ log (run_helper Install "/src/*" "/dst/p_net" "p_" world_old).2
    = [CallMkdirAll "/dst/p_net"].
Proof.
  destruct (early_errors_touch_no_file no_fault no_short_write dir_glob
              Install "/src/*" "/dst/p_net" "p_" world_old) as (Hr & Hl & _).
  - left. intros H. vm_compute in H. discriminate H.
  - unfold run_helper. rewrite Hr, Hl. split; vm_compute; reflexivity.
Defined.

Lemma Install_leaves_the_target_directory_witness :
  (run_helper Install "/src/*" "/dst" "p_" world_src).1
  = Some (NotRegularFile Install "/src/b_dir")
  ∧ is_dir (tree (run_helper Install "/src/*" "/dst" "p_" world_src).2) "/dst"
    = true.
Proof.
  split; [vm_compute; reflexivity|].
  apply (Install_leaves_the_target_directory no_fault no_short_write dir_glob
           "/src/*" "/dst" "p_" world_src).
  vm_compute. reflexivity.
Defined.

Lemma Remove_takes_whatever_is_at_the_target_witness :
  tree world_link !! "/dst/p_net" = Some (Symlink "/src/net")
  ∧ visit no_fault no_short_write Remove "/dst" "p_" "/src/net" [] world_link
    = ((None, []),
       World (delete "/dst/p_net" (tree world_link))
         [CallLstat "/src/net"; CallRemove "/dst/p_net"]).
Proof.
  split; [vm_compute; reflexivity|].
  apply (Remove_takes_whatever_is_at_the_target no_fault no_short_write
           "/dst" "p_" "/src/net" [] world_link "allow net"
           (Symlink "/src/net")).
  - reflexivity.
  - reflexivity.
  - vm_compute. reflexivity.
  - vm_compute. reflexivity.
  - intros perm H. discriminate H.
Defined.

